(** * yt-transcript: identifier extraction, summarisation request and CLI run

    A shallow embedding of [yt-transcript.py]:

    - Python [str] values are sequences of Unicode code points;
    - the four regular expressions of [extract_video_id] are terms of a small
      regex syntax, run by a backtracking matcher that explores alternatives
      in the order Python's [re] module does;
    - [fetch_transcript], [summarize] and [main] are written in a small
      trace-and-exception monad: every interaction with the outside world
      (standard streams, environment, the two network services, the file
      system) is recorded, in program order, as an [event]. *)

From Stdlib Require Import String Ascii List NArith ZArith Bool Lia Arith.
From Stdlib Require Import DecimalString.
Import ListNotations.

Set Implicit Arguments.

(** ** Python strings *)

(** A character is a Unicode code point, a [str] is a sequence of them;
    [len(s)] is [length s] and [s[:n]] is [firstn n s]. *)
Definition char := N.
Definition str := list char.

(** A literal of the source, written as a Rocq string. *)
Definition py (s : string) : str := map N_of_ascii (list_ascii_of_string s).

Definition char_eqb (a b : char) : bool := N.eqb a b.

Fixpoint str_eqb (a b : str) : bool :=
  match a, b with
  | [], [] => true
  | x :: a', y :: b' => char_eqb x y && str_eqb a' b'
  | _, _ => false
  end.

(** [str(n)] for a non-negative integer: its decimal digits. *)
Definition str_of_nat (n : nat) : str := py (NilEmpty.string_of_uint (Nat.to_uint n)).

(** ** Regular expressions *)

Module Re.

(** The fragment of Python's [re] syntax the program uses: literal
    characters, character classes, concatenation, ordered alternation
    [a|b] and bounded repetition [a{n}]. *)
Inductive regex :=
| Eps
| Chr (c : char)
| Cls (f : char -> bool)
| Seq (a b : regex)
| Alt (a b : regex)
| Rep (n : nat) (a : regex).

(** A literal string is the concatenation of its characters. *)
Definition lit (s : str) : regex := fold_right (fun c r => Seq (Chr c) r) Eps s.

(** Backtracking matcher in continuation-passing style: [rmatch r s k] matches
    [r] at the start of [s] and hands the unconsumed rest to [k]; when [k]
    fails the matcher backtracks into [r]. [Alt] tries its left branch first. *)
Fixpoint rmatch {R : Type} (r : regex) (s : str) (k : str -> option R) : option R :=
  match r with
  | Eps => k s
  | Chr c =>
      match s with
      | x :: t => if char_eqb x c then k t else None
      | [] => None
      end
  | Cls f =>
      match s with
      | x :: t => if f x then k t else None
      | [] => None
      end
  | Seq a b => rmatch a s (fun s' => rmatch b s' k)
  | Alt a b =>
      match rmatch a s k with
      | Some x => Some x
      | None => rmatch b s k
      end
  | Rep n a =>
      (fix rep (n : nat) (s : str) : option R :=
         match n with
         | O => k s
         | S m => rmatch a s (fun s' => rep m s')
         end) n s
  end.

(** A pattern with one capturing group: [head(group)], the shape of the three
    URL patterns, whose head is a non-capturing [(?:...)]. *)
Record pattern := { head : regex; group : regex }.

(** Match the pattern at the start of [s]; the result is [group(1)], the text
    consumed by the group. *)
Definition match_here (p : pattern) (s : str) : option str :=
  rmatch (head p) s (fun s1 =>
    rmatch (group p) s1 (fun s2 =>
      Some (firstn (length s1 - length s2) s1))).

(** [re.search(p, s).group(1)]: scan the start positions from left to right,
    the first position where the pattern matches wins; [None] when no
    position matches. *)
Fixpoint search (p : pattern) (s : str) : option str :=
  match match_here p s with
  | Some g => Some g
  | None =>
      match s with
      | [] => None
      | _ :: t => search p t
      end
  end.

(** [re.fullmatch(r, s)] seen as a truth value: the whole of [s] must be
    consumed. *)
Definition fullmatch (r : regex) (s : str) : bool :=
  match rmatch r s (fun rest => match rest with [] => Some tt | _ => None end) with
  | Some _ => true
  | None => false
  end.

(** The language of a regex, for reasoning about the matcher. *)
Inductive lang : regex -> str -> Prop :=
| L_eps : lang Eps []
| L_chr c : lang (Chr c) [c]
| L_cls (f : char -> bool) c : f c = true -> lang (Cls f) [c]
| L_seq a b s t : lang a s -> lang b t -> lang (Seq a b) (s ++ t)
| L_alt_l a b s : lang a s -> lang (Alt a b) s
| L_alt_r a b s : lang b s -> lang (Alt a b) s
| L_rep_O a : lang (Rep 0 a) []
| L_rep_S n a s t : lang a s -> lang (Rep n a) t -> lang (Rep (S n) a) (s ++ t).

(** [starts p s g]: the pattern matches at the start of [s] with [g] as the
    text of its group. *)
Definition starts (p : pattern) (s g : str) : Prop :=
  exists h rest, s = h ++ g ++ rest /\ lang (head p) h /\ lang (group p) g.

(** [at_offset p s n g]: the pattern matches [s] from position [n], with
    group text [g]. *)
Definition at_offset (p : pattern) (s : str) (n : nat) (g : str) : Prop :=
  exists pre rest, s = pre ++ rest /\ length pre = n /\ starts p rest g.

(** A pattern whose match at a given position is unique. *)
Definition unambiguous (p : pattern) : Prop :=
  forall s g g', starts p s g -> starts p s g' -> g = g'.

End Re.

(** ** The identifier extractor *)

(** The character class [[a-zA-Z0-9_-]]. *)
Definition id_char (c : char) : bool :=
  ((97 <=? c) && (c <=? 122)        (* a-z *)
   || (65 <=? c) && (c <=? 90)      (* A-Z *)
   || (48 <=? c) && (c <=? 57)      (* 0-9 *)
   || (c =? 95)                     (* _ *)
   || (c =? 45))%N.                 (* - *)

(** [[a-zA-Z0-9_-]{11}] *)
Definition id_regex : Re.regex := Re.Rep 11 (Re.Cls id_char).

(** [(?:v=|/v/)([a-zA-Z0-9_-]{11})] *)
Definition pattern_watch : Re.pattern :=
  {| Re.head := Re.Alt (Re.lit (py "v=")) (Re.lit (py "/v/")); Re.group := id_regex |}.

(** [(?:youtu\.be/)([a-zA-Z0-9_-]{11})] *)
Definition pattern_short : Re.pattern :=
  {| Re.head := Re.lit (py "youtu.be/"); Re.group := id_regex |}.

(** [(?:shorts/)([a-zA-Z0-9_-]{11})] *)
Definition pattern_shorts : Re.pattern :=
  {| Re.head := Re.lit (py "shorts/"); Re.group := id_regex |}.

Definition patterns : list Re.pattern := [pattern_watch; pattern_short; pattern_shorts].

(** Exceptions the program raises or lets through. *)
Inductive exn :=
| ValueError (msg : str)
| ServiceError (detail : str).

(** The [for pattern in patterns] loop: the first pattern that is found
    anywhere in [url] decides. *)
Fixpoint first_match (ps : list Re.pattern) (url : str) : option str :=
  match ps with
  | [] => None
  | p :: ps' =>
      match Re.search p url with
      | Some g => Some g
      | None => first_match ps' url
      end
  end.

Definition extract_video_id (url : str) : exn + str :=
  match first_match patterns url with
  | Some g => inr g
  | None =>
      if Re.fullmatch id_regex url then inr url
      else inl (ValueError (py "Could not extract a YouTube video ID from: " ++ url))
  end.

(** A well-formed identifier: exactly 11 characters of the identifier
    alphabet. *)
Definition is_video_id (s : str) : bool := (length s =? 11) && forallb id_char s.

(** The literal markers that introduce the identifier in each of the three
    recognized URL shapes, in the order the patterns are tried. *)
Definition markers_watch : list str := [py "v="; py "/v/"].
Definition markers_short : list str := [py "youtu.be/"].
Definition markers_shorts : list str := [py "shorts/"].

Definition shapes : list (list str) := [markers_watch; markers_short; markers_shorts].

(** [embedded ms url n tok]: at offset [n] of [url] stands one of the markers
    [ms], immediately followed by the well-formed identifier [tok]. *)
Definition embedded (ms : list str) (url : str) (n : nat) (tok : str) : Prop :=
  exists pre m post,
    url = pre ++ m ++ tok ++ post /\ length pre = n /\ In m ms /\ is_video_id tok = true.

(** The occurrence at offset [n] is the leftmost one of its shape. *)
Definition leftmost (ms : list str) (url : str) (n : nat) (tok : str) : Prop :=
  embedded ms url n tok /\ forall n' tok', embedded ms url n' tok' -> n <= n'.

(** The shape occurs nowhere in [url]. *)
Definition absent (ms : list str) (url : str) : Prop :=
  forall n tok, ~ embedded ms url n tok.

(** A pattern [(?:m1|...|mk)([a-zA-Z0-9_-]{11})] and the list of its
    markers. *)
Definition shape_of (p : Re.pattern) (ms : list str) : Prop :=
  (forall h, Re.lang (Re.head p) h <-> In h ms) /\ Re.group p = id_regex.

(** No two markers can both start the same text. *)
Definition prefix_free (ms : list str) : Prop :=
  forall m m' r r', In m ms -> In m' ms -> m ++ r = m' ++ r' -> m = m'.

(** ** Effects: a trace of events and early termination *)

(** [Path(parent) / name]: a file [name] inside the directory [parent]. *)
Record path := { parent : str; name : str }.

Definition path_eqb (p q : path) : bool :=
  str_eqb (parent p) (parent q) && str_eqb (name p) (name q).

(** What the process does to the outside world, in program order. The file
    system is taken to be reliable: [mkdir] and [write_text] are recorded
    and do not raise. *)
Inductive event :=
| Mkdir (dir : str)                     (* Path.mkdir(parents=True, exist_ok=True) *)
| Stdout (line : str)                   (* print(line) *)
| Stderr (line : str)                   (* print(line, file=sys.stderr) *)
| Traceback (e : exn)                   (* the interpreter's report of an uncaught exception, on stderr *)
| Getenv (var : str)                    (* os.environ.get(var) *)
| FetchCall (video_id : str)            (* network: YouTubeTranscriptApi().fetch(video_id) *)
| CompletionCall (api_key model : str) (max_tokens : Z) (content : str)
                                        (* network: client.messages.create(...) *)
| WriteText (p : path) (text : str).    (* Path.write_text(text, encoding="utf-8") *)

(** The collaborators the program does not implement: the process
    environment, the two third-party services and [pathlib]'s rendering of a
    path. [fetched] is the transcript object the transcript service returns;
    [messages_create] gives [message.content[0].text] of the completion. *)
Record world := {
  environ : str -> option str;
  fetched : Type;
  ytt_fetch : str -> exn + fetched;
  format_transcript : fetched -> str;
  messages_create : str -> str -> Z -> str -> exn + str;
  path_str : path -> str
}.

(** Why a computation stopped early: an exception is propagating, or
    [sys.exit(code)] was called. *)
Inductive stop :=
| Raised (e : exn)
| SysExit (code : Z).

(** A computation: the events it emitted and how it ended. *)
Definition M (A : Type) : Type := (list event * (stop + A))%type.

Definition ret {A} (a : A) : M A := ([], inr a).

Definition bind {A B} (m : M A) (f : A -> M B) : M B :=
  match m with
  | (t, inl s) => (t, inl s)
  | (t, inr a) => let (t', r) := f a in (t ++ t', r)
  end.

Declare Scope prog_scope.
Delimit Scope prog_scope with prog.
Notation "x <- m ;; k" := (bind m (fun x => k))
  (at level 61, m at next level, right associativity) : prog_scope.
Notation "m ;; k" := (bind m (fun _ => k))
  (at level 61, right associativity) : prog_scope.
Local Open Scope prog_scope.

Definition emit (e : event) : M unit := ([e], inr tt).
Definition raise {A} (e : exn) : M A := ([], inl (Raised e)).
Definition sys_exit {A} (code : Z) : M A := ([], inl (SysExit code)).
Definition print (line : str) : M unit := emit (Stdout line).
Definition eprint (line : str) : M unit := emit (Stderr line).

(** A call that returns or raises. *)
Definition call {A} (r : exn + A) : M A :=
  match r with
  | inl e => raise e
  | inr a => ret a
  end.

(** Python truthiness of [os.environ.get(...)] and of a [str]. *)
Definition str_truthy (s : str) : bool :=
  match s with
  | [] => false
  | _ :: _ => true
  end.

Definition opt_truthy (o : option str) : bool :=
  match o with
  | None => false
  | Some s => str_truthy s
  end.

(** The string behind an [Optional[str]] known not to be [None]. *)
Definition str_of_opt (o : option str) : str :=
  match o with
  | Some s => s
  | None => []
  end.

(** ** The program *)

Definition API_KEY_VAR : str := py "ANTHROPIC_API_KEY".

(** [transcript[:100_000]] *)
Definition TRUNCATE_LIMIT : nat := N.to_nat 100000.
Definition truncate (transcript : str) : str := firstn TRUNCATE_LIMIT transcript.

Definition NL : str := [10%N].
Definition QUOTE : str := [34%N].

(** The two f-strings of [summarize]: literal text around the holes
    [{prompt}] and [{truncated}]. *)
Definition FOCUS_BEFORE : str :=
  py "Here is a YouTube video transcript. The user has a specific request:" ++ NL ++ NL
  ++ QUOTE.

Definition FOCUS_AFTER : str :=
  QUOTE ++ NL ++ NL
  ++ py "Answer their request thoroughly based on the transcript. "
  ++ py "Use headings and bullet points for readability." ++ NL ++ NL
  ++ py "Transcript:" ++ NL.

Definition DEFAULT_INSTRUCTION : str :=
  py "Summarize this YouTube video transcript. Produce a clear, "
  ++ py "well-structured summary that captures all the key points, "
  ++ py "arguments, and conclusions. Use headings and bullet points "
  ++ py "for readability. The summary should be thorough enough that "
  ++ py "someone who hasn't watched the video understands the full content." ++ NL ++ NL
  ++ py "Transcript:" ++ NL.

Definition focus_msg (prompt truncated : str) : str :=
  FOCUS_BEFORE ++ prompt ++ FOCUS_AFTER ++ truncated.

Definition default_msg (truncated : str) : str :=
  DEFAULT_INSTRUCTION ++ truncated.

Definition user_msg (prompt transcript : str) : str :=
  if str_truthy prompt then focus_msg prompt (truncate transcript)
  else default_msg (truncate transcript).

(** The namespace [parser.parse_args()] returns. [prompt = None] is the
    default of [-p/--prompt]: the flag was not given. *)
Record args := {
  url : str;
  prompt : option str;
  output_dir : str;
  model : str;
  no_transcript : bool
}.

(** The namespace of a command line that holds only the positional URL. *)
Definition default_args (u : str) : args :=
  {| url := u; prompt := None; output_dir := py ".";
     model := py "claude-haiku-4-5-20251001"; no_transcript := false |}.

Section Program.

Variable w : world.

Definition fetch_transcript (video_id : str) : M str :=
  emit (FetchCall video_id) ;;
  transcript <- call (ytt_fetch w video_id) ;;
  ret (format_transcript w transcript).

(** The [import anthropic] that opens the function is taken to succeed;
    building the client makes no request. *)
Definition summarize (transcript prompt model : str) : M str :=
  emit (Getenv API_KEY_VAR) ;;
  let api_key := environ w API_KEY_VAR in
  if negb (opt_truthy api_key) then
    eprint (py "Error: ANTHROPIC_API_KEY environment variable not set.") ;;
    eprint (py "Set it with: export ANTHROPIC_API_KEY='sk-ant-...'") ;;
    sys_exit 1
  else
    let key := str_of_opt api_key in
    let content := user_msg prompt transcript in
    emit (CompletionCall key model 4096 content) ;;
    call (messages_create w key model 4096 content).

Definition transcript_name (video_id : str) : str :=
  py "transcript-" ++ video_id ++ py ".txt".

Definition summary_name (video_id : str) : str :=
  py "summary-" ++ video_id ++ py ".txt".

Definition saved_line (label : str) (p : path) (text : str) : str :=
  label ++ path_str w p ++ py "  (" ++ str_of_nat (length text) ++ py " chars)".

Definition main (a : args) : M unit :=
  video_id <- call (extract_video_id (url a)) ;;
  let out_dir := output_dir a in
  emit (Mkdir out_dir) ;;
  print (py "Fetching transcript for video: " ++ video_id ++ py " ...") ;;
  transcript <- fetch_transcript video_id ;;
  (if negb (no_transcript a) then
     let transcript_path := {| parent := out_dir; name := transcript_name video_id |} in
     emit (WriteText transcript_path transcript) ;;
     print (saved_line (py "Transcript saved: ") transcript_path transcript)
   else ret tt) ;;
  match prompt a with
  | Some p =>
      print (py "Summarizing with " ++ model a ++ py " ...") ;;
      summary <- summarize transcript p (model a) ;;
      let summary_path := {| parent := out_dir; name := summary_name video_id |} in
      emit (WriteText summary_path summary) ;;
      print (saved_line (py "Summary saved:    ") summary_path summary)
  | None => ret tt
  end.

(** Running the script as a process, from the point where
    [parser.parse_args()] has returned the namespace [a]: an uncaught
    exception makes the interpreter print a traceback on the error stream
    and exit with status 1; [sys.exit(code)] exits with [code]; falling off
    the end exits with 0. The exits [argparse] takes on its own, before a
    namespace exists (status 2 on a usage error, status 0 on [-h]), lie
    outside [run]. *)
Definition run (a : args) : list event * Z :=
  match main a with
  | (t, inr _) => (t, 0%Z)
  | (t, inl (SysExit code)) => (t, code)
  | (t, inl (Raised e)) => (t ++ [Traceback e], 1%Z)
  end.

(** *** Segments of a run's trace, for stating its properties *)

(** The events of a run up to and including the transcript fetch. *)
Definition fetch_events (a : args) (vid : str) : list event :=
  [Mkdir (output_dir a);
   Stdout (py "Fetching transcript for video: " ++ vid ++ py " ...");
   FetchCall vid].

(** The events of saving the transcript, unless [--no-transcript]. *)
Definition save_events (a : args) (vid transcript : str) : list event :=
  let transcript_path := {| parent := output_dir a; name := transcript_name vid |} in
  if no_transcript a then []
  else [WriteText transcript_path transcript;
        Stdout (saved_line (py "Transcript saved: ") transcript_path transcript)].

(** The events of saving the summary. *)
Definition summary_events (a : args) (vid summary : str) : list event :=
  let summary_path := {| parent := output_dir a; name := summary_name vid |} in
  [WriteText summary_path summary;
   Stdout (saved_line (py "Summary saved:    ") summary_path summary)].

Definition summarizing_line (a : args) : event :=
  Stdout (py "Summarizing with " ++ model a ++ py " ...").

End Program.

(** ** Observations on a trace *)

Definition is_completion_call (e : event) : bool :=
  match e with CompletionCall _ _ _ _ => true | _ => false end.

Definition is_fetch_call (e : event) : bool :=
  match e with FetchCall _ => true | _ => false end.

Definition is_network_call (e : event) : bool :=
  is_completion_call e || is_fetch_call e.

Definition is_getenv (e : event) : bool :=
  match e with Getenv _ => true | _ => false end.

Definition on_stderr (e : event) : bool :=
  match e with Stderr _ | Traceback _ => true | _ => false end.

Definition on_stdout (e : event) : bool :=
  match e with Stdout _ => true | _ => false end.

(** The contents of the file at [p] after the trace, when the trace wrote
    it: the text of the last [write_text] to [p]. *)
Fixpoint file_after (t : list event) (p : path) : option str :=
  match t with
  | [] => None
  | e :: t' =>
      match file_after t' p with
      | Some x => Some x
      | None =>
          match e with
          | WriteText q text => if path_eqb q p then Some text else None
          | _ => None
          end
      end
  end.

(** The names of the files the trace wrote, in order. *)
Fixpoint written_names (t : list event) : list str :=
  match t with
  | [] => []
  | WriteText p _ :: t' => name p :: written_names t'
  | _ :: t' => written_names t'
  end.

(** The files the trace wrote, with their texts, in order. *)
Fixpoint writes (t : list event) : list (path * str) :=
  match t with
  | [] => []
  | WriteText p text :: t' => (p, text) :: writes t'
  | _ :: t' => writes t'
  end.

(** The characters of the names of the output files: the identifier
    alphabet and the dot of the extension. *)
Definition file_name_char (c : char) : bool := id_char c || (c =? 46)%N.

(** The text of the exception [extract_video_id] raises for [url]. *)
Definition invalid_input (url : str) : exn :=
  ValueError (py "Could not extract a YouTube video ID from: " ++ url).

(** ** Worlds for concrete runs *)

(** [str(Path(parent) / name)] on POSIX for a directory written without
    trailing or repeated separators: the current directory, [.] or the
    empty string, is not printed. *)
Definition posix_path_str (p : path) : str :=
  if str_eqb (parent p) (py ".") || str_eqb (parent p) [] then name p
  else parent p ++ py "/" ++ name p.

(** A world in which the credential variable holds [key] (or is unset), the
    transcript service answers every request with [transcript] and the
    completion service every request with [completion]. *)
Definition stub_world (key : option str) (transcript completion : exn + str) : world :=
  {| environ := fun v => if str_eqb v API_KEY_VAR then key else None;
     fetched := str;
     ytt_fetch := fun _ => transcript;
     format_transcript := fun t => t;
     messages_create := fun _ _ _ _ => completion;
     path_str := posix_path_str |}.

(** A world without the credential, and a command line that asks for the
    default summary of a short link. *)
Definition world_without_key : world :=
  stub_world None (inr (py "hello")) (inr (py "a summary")).

(** A world in which everything works. *)
Definition world_with_key : world :=
  stub_world (Some (py "sk-ant-test")) (inr (py "hello")) (inr (py "a summary")).

Definition args_default_summary : args :=
  {| url := py "https://youtu.be/dQw4w9WgXcQ"; prompt := Some [];
     output_dir := py "out"; model := py "claude-haiku-4-5-20251001";
     no_transcript := true |}.

(** The two lines [summarize] prints when the credential is missing. *)
Definition MISSING_KEY_1 : str := py "Error: ANTHROPIC_API_KEY environment variable not set.".
Definition MISSING_KEY_2 : str := py "Set it with: export ANTHROPIC_API_KEY='sk-ant-...'".

(** * Properties *)

(** ** Strings *)

Lemma str_eqb_eq (a b : str) : str_eqb a b = true <-> a = b.
Proof.
  revert b; induction a as [|x a IH]; intros [|y b]; simpl; try (split; congruence).
  unfold char_eqb. rewrite andb_true_iff, N.eqb_eq, IH.
  split; [intros [-> ->]; reflexivity | intros E; injection E; auto].
Qed.

Lemma str_eqb_refl (a : str) : str_eqb a a = true.
Proof. apply str_eqb_eq; reflexivity. Qed.

Lemma app_same_length_inv (A : Type) (a b c d : list A) :
  a ++ b = c ++ d -> length a = length c -> a = c /\ b = d.
Proof.
  revert c; induction a as [|x a IH]; intros [|y c]; simpl; intros E L;
    try discriminate; auto.
  injection E as -> E. injection L as L.
  destruct (IH _ E L) as [-> ->]; auto.
Qed.

(** ** The matcher against the language of a regex *)

Module ReFacts.
Import Re.

Lemma rmatch_rep_S (R : Type) n a s (k : str -> option R) :
  rmatch (Rep (S n) a) s k = rmatch a s (fun s' => rmatch (Rep n a) s' k).
Proof. reflexivity. Qed.

(** Whatever the matcher returns comes from the continuation, applied to
    the rest of a split of the input whose first part is in the language. *)
Lemma rmatch_sound (R : Type) r : forall s (k : str -> option R) x,
  rmatch r s k = Some x ->
  exists s1 s2, s = s1 ++ s2 /\ lang r s1 /\ k s2 = Some x.
Proof.
  induction r as [|c|f|a IHa b IHb|a IHa b IHb|n a IHa]; intros s k x H.
  - exists [], s; repeat split; [constructor | exact H].
  - destruct s as [|y t]; simpl in H; [discriminate|].
    destruct (char_eqb y c) eqn:E; [|discriminate].
    apply N.eqb_eq in E; subst y.
    exists [c], t; repeat split; [constructor | exact H].
  - destruct s as [|y t]; simpl in H; [discriminate|].
    destruct (f y) eqn:E; [|discriminate].
    exists [y], t; repeat split; [constructor; exact E | exact H].
  - simpl in H. apply IHa in H as (s1 & s' & -> & La & H).
    apply IHb in H as (s2 & s3 & -> & Lb & H).
    exists (s1 ++ s2), s3; rewrite app_assoc; repeat split; [constructor; auto | exact H].
  - simpl in H. destruct (rmatch a s k) eqn:E.
    + injection H as ->. apply IHa in E as (s1 & s2 & -> & La & E).
      exists s1, s2; repeat split; [apply L_alt_l; auto | exact E].
    + apply IHb in H as (s1 & s2 & -> & Lb & H).
      exists s1, s2; repeat split; [apply L_alt_r; auto | exact H].
  - revert s H; induction n as [|n IHn]; intros s H.
    + exists [], s; repeat split; [constructor | exact H].
    + rewrite rmatch_rep_S in H.
      apply IHa in H as (s1 & s' & -> & La & H).
      apply IHn in H as (s2 & s3 & -> & Lb & H).
      exists (s1 ++ s2), s3; rewrite app_assoc; repeat split; [constructor; auto | exact H].
Qed.

(** Backtracking is exhaustive: when some split of the input has its first
    part in the language and a rest the continuation accepts, the matcher
    returns a result. *)
Lemma rmatch_complete r s1 : lang r s1 ->
  forall (R : Type) (k : str -> option R) s2 x, k s2 = Some x ->
  exists y, rmatch r (s1 ++ s2) k = Some y.
Proof.
  induction 1 as [|c|f c Hc|a b s t _ IHa _ IHb|a b s _ IHa|a b s _ IHb| a
                 |n a s t _ IHa _ IHn]; intros R k s2 x Hk.
  - exists x; exact Hk.
  - exists x; simpl. unfold char_eqb; rewrite N.eqb_refl; exact Hk.
  - exists x; simpl. rewrite Hc; exact Hk.
  - simpl. rewrite <- app_assoc.
    destruct (IHb R k s2 x Hk) as [y Hy].
    exact (IHa R (fun s' => rmatch b s' k) (t ++ s2) y Hy).
  - simpl. destruct (IHa R k s2 x Hk) as [y ->]. exists y; reflexivity.
  - simpl. destruct (rmatch a (s ++ s2) k) as [y|]; [exists y; reflexivity|].
    exact (IHb R k s2 x Hk).
  - exists x; exact Hk.
  - rewrite rmatch_rep_S, <- app_assoc.
    destruct (IHn R k s2 x Hk) as [y Hy].
    exact (IHa R (fun s' => rmatch (Rep n a) s' k) (t ++ s2) y Hy).
Qed.

Lemma fullmatch_lang r s : fullmatch r s = true <-> lang r s.
Proof.
  unfold fullmatch; split.
  - destruct (rmatch r s _) as [u|] eqn:E; [intros _|discriminate].
    apply rmatch_sound in E as (s1 & s2 & -> & L & E).
    destruct s2; [rewrite app_nil_r; exact L | discriminate].
  - intros L.
    destruct (rmatch_complete L (fun rest : str => match rest with [] => Some tt | _ => None end)
                [] eq_refl) as [y E].
    rewrite app_nil_r in E. rewrite E; reflexivity.
Qed.

Lemma lang_lit l s : lang (lit l) s <-> s = l.
Proof.
  revert s; induction l as [|c l IH]; intros s; simpl; split.
  - inversion 1; reflexivity.
  - intros ->; constructor.
  - inversion 1 as [| | |a b s1 s2 H1 H2| | | |]; subst.
    inversion H1; subst. apply IH in H2; subst; reflexivity.
  - intros ->. change (c :: l) with ([c] ++ l). constructor; [constructor | apply IH; reflexivity].
Qed.

Lemma lang_rep_cls f n s :
  lang (Rep n (Cls f)) s <-> length s = n /\ forallb f s = true.
Proof.
  revert s; induction n as [|n IH]; intros s; split.
  - inversion 1; auto.
  - intros [L _]. destruct s; [constructor | discriminate].
  - inversion 1 as [| | | | | | |m a s1 s2 H1 H2]; subst.
    inversion H1; subst. apply IH in H2 as [<- F]. simpl. rewrite F.
    match goal with h : f _ = true |- _ => rewrite h end. auto.
  - intros [L F]. destruct s as [|c s]; [discriminate|].
    simpl in F. apply andb_true_iff in F as [Fc F]. injection L as L.
    change (c :: s) with ([c] ++ s).
    constructor; [constructor; exact Fc | apply IH; auto].
Qed.

Lemma match_here_sound p s g : match_here p s = Some g -> starts p s g.
Proof.
  unfold match_here; intros H.
  apply rmatch_sound in H as (h & s1 & -> & Lh & H).
  apply rmatch_sound in H as (g0 & s2 & -> & Lg & H).
  injection H as <-.
  rewrite length_app, Nat.add_sub, firstn_app, Nat.sub_diag, firstn_all; simpl.
  rewrite app_nil_r. exists h, s2; auto.
Qed.

Lemma match_here_complete p s g : starts p s g -> exists g', match_here p s = Some g'.
Proof.
  intros (h & rest & -> & Lh & Lg). unfold match_here.
  set (k2 := fun s1 s2 : str => Some (firstn (length s1 - length s2) s1)).
  destruct (rmatch_complete Lg (k2 (g ++ rest)) rest eq_refl) as [y Hy].
  exact (rmatch_complete Lh (fun s1 => rmatch (group p) s1 (k2 s1)) (g ++ rest) Hy).
Qed.

Lemma match_here_iff p (U : unambiguous p) s g :
  match_here p s = Some g <-> starts p s g.
Proof.
  split; [apply match_here_sound|].
  intros H. destruct (match_here_complete H) as [g' E].
  rewrite E. f_equal. eapply U; [apply match_here_sound; exact E | exact H].
Qed.

Lemma at_offset_O p s g : at_offset p s 0 g <-> starts p s g.
Proof.
  split.
  - intros (pre & rest & -> & L & H). destruct pre; [exact H | discriminate].
  - intros H. exists [], s; auto.
Qed.

Lemma at_offset_S p x s n g : at_offset p (x :: s) (S n) g <-> at_offset p s n g.
Proof.
  split.
  - intros (pre & rest & E & L & H). destruct pre as [|y pre]; [discriminate|].
    injection E as -> ->. injection L as L. exists pre, rest; auto.
  - intros (pre & rest & -> & L & H). exists (x :: pre), rest; simpl; auto.
Qed.

Lemma at_offset_nil p n g : at_offset p [] n g -> n = 0.
Proof.
  intros (pre & rest & E & L & _). symmetry in E.
  apply app_eq_nil in E as [-> _]. simpl in L; auto.
Qed.

(** [search] returns the group of the leftmost position where the pattern
    matches, and [None] exactly when it matches nowhere. *)
Lemma search_spec p s :
  match search p s with
  | Some g => exists n, at_offset p s n g /\ forall n' g', at_offset p s n' g' -> n <= n'
  | None => forall n g, ~ at_offset p s n g
  end.
Proof.
  induction s as [|x s IH]; simpl.
  - destruct (match_here p []) as [g|] eqn:E.
    + exists 0; split; [apply at_offset_O, match_here_sound, E | intros; lia].
    + intros n g H. pose proof (at_offset_nil H); subst n.
      apply at_offset_O, match_here_complete in H as [g' H]. congruence.
  - destruct (match_here p (x :: s)) as [g|] eqn:E.
    + exists 0; split; [apply at_offset_O, match_here_sound, E | intros; lia].
    + destruct (search p s) as [g|].
      * destruct IH as (n & Hn & Hmin). exists (S n); split; [apply at_offset_S, Hn|].
        intros [|n'] g' H.
        -- apply at_offset_O, match_here_complete in H as [g'' H]. congruence.
        -- apply at_offset_S, Hmin in H. lia.
      * intros [|n] g H.
        -- apply at_offset_O, match_here_complete in H as [g'' H]. congruence.
        -- apply at_offset_S in H. exact (IH _ _ H).
Qed.

Lemma at_offset_unique p (U : unambiguous p) s n g g' :
  at_offset p s n g -> at_offset p s n g' -> g = g'.
Proof.
  intros (pre & rest & -> & L & H) (pre' & rest' & E & L' & H').
  apply app_same_length_inv in E as [-> ->]; [|congruence].
  exact (U _ _ _ H H').
Qed.

Lemma search_leftmost p (U : unambiguous p) s n g :
  at_offset p s n g -> (forall n' g', at_offset p s n' g' -> n <= n') ->
  search p s = Some g.
Proof.
  intros H Hmin. pose proof (search_spec p s) as S.
  destruct (search p s) as [g0|]; [|elim (S _ _ H)].
  destruct S as (n0 & H0 & Hmin0).
  assert (n0 = n) by (apply Nat.le_antisymm; [apply (Hmin0 _ _ H) | apply (Hmin _ _ H0)]).
  subst n0. f_equal. exact (at_offset_unique U H0 H).
Qed.

Lemma search_none p s : search p s = None <-> forall n g, ~ at_offset p s n g.
Proof.
  pose proof (search_spec p s) as S. split.
  - intros E; rewrite E in S; exact S.
  - intros H. destruct (search p s) as [g|]; [|reflexivity].
    destruct S as (n & Hn & _). elim (H _ _ Hn).
Qed.

Lemma search_some p s g : search p s = Some g -> exists n, at_offset p s n g.
Proof.
  intros E. pose proof (search_spec p s) as S; rewrite E in S.
  destruct S as (n & Hn & _); eauto.
Qed.

Lemma search_found p s n g : at_offset p s n g -> exists n' g', n' <= n /\
  at_offset p s n' g' /\ search p s = Some g'.
Proof.
  intros H. pose proof (search_spec p s) as S.
  destruct (search p s) as [g0|]; [|elim (S _ _ H)].
  destruct S as (n0 & H0 & Hmin). exists n0, g0; repeat split; eauto.
Qed.

End ReFacts.

(** ** The URL patterns against the markers of each shape *)

Section Shapes.
Import Re ReFacts.

Lemma is_video_id_lang s : lang id_regex s <-> is_video_id s = true.
Proof.
  unfold id_regex, is_video_id. rewrite lang_rep_cls, andb_true_iff, Nat.eqb_eq.
  reflexivity.
Qed.

Lemma is_video_id_length s : is_video_id s = true -> length s = 11.
Proof. unfold is_video_id. rewrite andb_true_iff, Nat.eqb_eq. tauto. Qed.

Lemma shape_watch : shape_of pattern_watch markers_watch.
Proof.
  split; [|reflexivity]. intros h; unfold pattern_watch, markers_watch; cbn [head]; split.
  - inversion 1 as [| | | |a b s L|a b s L| |]; subst.
    + apply (proj1 (lang_lit (py "v=") h)) in L. left; auto.
    + apply (proj1 (lang_lit (py "/v/") h)) in L. right; left; auto.
  - intros [<-|[<-|[]]]; [apply L_alt_l | apply L_alt_r]; apply lang_lit; reflexivity.
Qed.

Lemma shape_short : shape_of pattern_short markers_short.
Proof.
  split; [|reflexivity]. intros h; cbn [head pattern_short pattern_shorts].
  rewrite lang_lit. simpl. intuition congruence.
Qed.

Lemma shape_shorts : shape_of pattern_shorts markers_shorts.
Proof.
  split; [|reflexivity]. intros h; cbn [head pattern_short pattern_shorts].
  rewrite lang_lit. simpl. intuition congruence.
Qed.

Lemma prefix_free_watch : prefix_free markers_watch.
Proof.
  intros m m' r r' [<-|[<-|[]]] [<-|[<-|[]]] E; try reflexivity; discriminate E.
Qed.

Lemma prefix_free_single m : prefix_free [m].
Proof. intros a b r r' [<-|[]] [<-|[]] _; reflexivity. Qed.

Variables (p : pattern) (ms : list str).
Hypothesis Hshape : shape_of p ms.
Hypothesis Hfree : prefix_free ms.

Lemma starts_marker s g :
  starts p s g <-> exists m rest, s = m ++ g ++ rest /\ In m ms /\ is_video_id g = true.
Proof.
  destruct Hshape as [Hh Hg]. unfold starts. rewrite Hg.
  split; intros (h & rest & E & L1 & L2); exists h, rest;
    (split; [exact E|split]); try apply Hh; try apply is_video_id_lang; auto.
Qed.

Lemma shape_unambiguous : unambiguous p.
Proof.
  intros s g g' H H'.
  apply starts_marker in H as (m & r & -> & Hm & Hg).
  apply starts_marker in H' as (m' & r' & E & Hm' & Hg').
  pose proof (Hfree m m' _ _ Hm Hm' E); subst m'.
  apply app_inv_head in E.
  apply app_same_length_inv in E as [E _]; [congruence|].
  rewrite (is_video_id_length _ Hg), (is_video_id_length _ Hg'); reflexivity.
Qed.

Lemma at_offset_embedded url n tok : at_offset p url n tok <-> embedded ms url n tok.
Proof.
  unfold at_offset, embedded. split.
  - intros (pre & rest & -> & L & H).
    apply starts_marker in H as (m & post & -> & Hm & Hg). exists pre, m, post; auto.
  - intros (pre & m & post & -> & L & Hm & Hg).
    exists pre, (m ++ tok ++ post); repeat split; auto.
    apply starts_marker. exists m, post; auto.
Qed.

Lemma search_leftmost_shape url n tok : leftmost ms url n tok -> search p url = Some tok.
Proof.
  intros [H Hmin]. apply (search_leftmost shape_unambiguous (n := n)).
  - apply at_offset_embedded, H.
  - intros n' g' H'. apply Hmin with g'. apply at_offset_embedded, H'.
Qed.

Lemma search_absent_shape url : search p url = None <-> absent ms url.
Proof.
  rewrite search_none. unfold absent.
  split; intros H n g H'; apply (H n g); apply at_offset_embedded; exact H'.
Qed.

Lemma search_embedded_shape url n tok : embedded ms url n tok ->
  exists n' tok', n' <= n /\ leftmost ms url n' tok' /\ search p url = Some tok'.
Proof.
  intros H. apply at_offset_embedded in H.
  pose proof (search_spec p url) as S.
  destruct (search p url) as [g|]; [|elim (S _ _ H)].
  destruct S as (n0 & H0 & Hmin). exists n0, g. split; [exact (Hmin _ _ H)|].
  split; [|reflexivity]. split; [apply at_offset_embedded, H0|].
  intros n' g' H'. apply Hmin with g'. apply at_offset_embedded, H'.
Qed.

Lemma search_some_shape url tok : search p url = Some tok ->
  exists n, leftmost ms url n tok.
Proof.
  intros E. pose proof (search_spec p url) as S. rewrite E in S.
  destruct S as (n & H & Hmin). exists n. split; [apply at_offset_embedded, H|].
  intros n' g' H'. apply Hmin with g'. apply at_offset_embedded, H'.
Qed.

(** A decision procedure for [leftmost] on a concrete text: the matcher
    finds nothing at the offsets before [n]. *)
Lemma leftmost_by_matcher url n tok :
  embedded ms url n tok ->
  forallb (fun k => match match_here p (skipn k url) with Some _ => false | None => true end)
          (seq 0 n) = true ->
  leftmost ms url n tok.
Proof.
  intros H F. split; [exact H|]. intros n' tok' H'.
  destruct (Nat.le_gt_cases n n') as [|Lt]; [assumption|exfalso].
  rewrite forallb_forall in F.
  assert (In n' (seq 0 n)) as I by (apply in_seq; lia).
  specialize (F _ I).
  apply at_offset_embedded in H' as (pre & rest & -> & L & H').
  rewrite <- L, skipn_app, Nat.sub_diag, skipn_all in F. simpl in F.
  apply match_here_complete in H' as [g E]. rewrite E in F. discriminate.
Qed.

End Shapes.

(** ** [extract_video_id] *)

Lemma embedded_length ms url n tok :
  (forall m, In m ms -> m <> []) -> embedded ms url n tok -> 12 <= length url.
Proof.
  intros Hne (pre & m & post & -> & _ & Hm & Hid).
  rewrite !length_app, (is_video_id_length _ Hid).
  specialize (Hne _ Hm). destruct m; [congruence|simpl; lia].
Qed.

(** A bare identifier contains none of the three URL shapes. *)
Lemma video_id_absent s ms : In ms shapes -> is_video_id s = true -> absent ms s.
Proof.
  intros Hin Hid n tok H.
  apply embedded_length in H.
  - rewrite (is_video_id_length _ Hid) in H. lia.
  - intros m Hm ->. simpl in Hin.
    destruct Hin as [<-|[<-|[<-|[]]]]; simpl in Hm; intuition discriminate.
Qed.

Lemma extract_unfold url :
  extract_video_id url =
  match Re.search pattern_watch url with
  | Some g => inr g
  | None =>
    match Re.search pattern_short url with
    | Some g => inr g
    | None =>
      match Re.search pattern_shorts url with
      | Some g => inr g
      | None =>
          if is_video_id url then inr url
          else inl (ValueError (py "Could not extract a YouTube video ID from: " ++ url))
      end
    end
  end.
Proof.
  unfold extract_video_id, patterns, first_match.
  destruct (Re.search pattern_watch url); [reflexivity|].
  destruct (Re.search pattern_short url); [reflexivity|].
  destruct (Re.search pattern_shorts url); [reflexivity|].
  destruct (Re.fullmatch id_regex url) eqn:F.
  - apply ReFacts.fullmatch_lang, is_video_id_lang in F. rewrite F; reflexivity.
  - destruct (is_video_id url) eqn:I; [|reflexivity].
    apply is_video_id_lang, ReFacts.fullmatch_lang in I. congruence.
Qed.

Lemma prefix_free_short : prefix_free markers_short.
Proof. apply prefix_free_single. Qed.

Lemma prefix_free_shorts : prefix_free markers_shorts.
Proof. apply prefix_free_single. Qed.

(** The shape [ms], preceded in the order of trial by the shapes [before],
    decides as soon as none of [before] occurs: the result is the token of
    the leftmost occurrence of [ms]. *)
Lemma extract_by_shape url before ms after n tok :
  shapes = before ++ ms :: after ->
  (forall ms', In ms' before -> absent ms' url) ->
  embedded ms url n tok ->
  exists n' tok', n' <= n /\ leftmost ms url n' tok' /\ extract_video_id url = inr tok'.
Proof.
  intros E Habs H. rewrite extract_unfold.
  destruct before as [|b1 [|b2 [|b3 before]]]; simpl in E.
  - injection E as <- _.
    destruct (search_embedded_shape shape_watch H) as (n' & tok' & Hle & Hl & ->); eauto.
  - injection E as <- <- _.
    rewrite (proj2 (search_absent_shape shape_watch url)) by (apply Habs; simpl; auto).
    destruct (search_embedded_shape shape_short H) as (n' & tok' & Hle & Hl & ->); eauto.
  - injection E as <- <- <- _.
    rewrite (proj2 (search_absent_shape shape_watch url)) by (apply Habs; simpl; auto).
    rewrite (proj2 (search_absent_shape shape_short url)) by (apply Habs; simpl; auto).
    destruct (search_embedded_shape shape_shorts H) as (n' & tok' & Hle & Hl & ->); eauto.
  - exfalso. injection E as _ _ _ E. destruct before; discriminate E.
Qed.

Lemma leftmost_unique ms url n tok n' tok' :
  In ms shapes -> leftmost ms url n tok -> leftmost ms url n' tok' -> tok = tok'.
Proof.
  intros Hin H H'.
  assert (exists p, shape_of p ms /\ prefix_free ms) as (p & Hs & Hf).
  { simpl in Hin. destruct Hin as [<-|[<-|[<-|[]]]].
    - exists pattern_watch; split; [apply shape_watch | apply prefix_free_watch].
    - exists pattern_short; split; [apply shape_short | apply prefix_free_short].
    - exists pattern_shorts; split; [apply shape_shorts | apply prefix_free_shorts]. }
  pose proof (search_leftmost_shape Hs Hf H) as E.
  pose proof (search_leftmost_shape Hs Hf H') as E'.
  congruence.
Qed.

Lemma absent_by_search p ms url :
  shape_of p ms -> prefix_free ms -> Re.search p url = None -> absent ms url.
Proof. intros Hs Hf E. exact (proj1 (search_absent_shape Hs url) E). Qed.

Lemma extract_video_id_well_formed url tok :
  extract_video_id url = inr tok -> is_video_id tok = true.
Proof.
  rewrite extract_unfold.
  destruct (Re.search pattern_watch url) as [g|] eqn:E1.
  { intros [= <-]. apply (search_some_shape shape_watch) in E1 as (n & (pre & m & post & H) & _).
    tauto. }
  destruct (Re.search pattern_short url) as [g|] eqn:E2.
  { intros [= <-]. apply (search_some_shape shape_short) in E2 as (n & (pre & m & post & H) & _).
    tauto. }
  destruct (Re.search pattern_shorts url) as [g|] eqn:E3.
  { intros [= <-]. apply (search_some_shape shape_shorts) in E3 as (n & (pre & m & post & H) & _).
    tauto. }
  destruct (is_video_id url) eqn:I; [intros [= <-]; exact I | discriminate].
Qed.

(** C1 (as stated) fails: this short link embeds the token [dQw4w9WgXcQ]
    after [youtu.be/], yet the pattern for [v=], which is tried first, finds
    the value of the query parameter and that value is returned. *)
Lemma extract_video_id_short_link_shadowed :
  In markers_short shapes
  /\ embedded markers_short (py "https://youtu.be/dQw4w9WgXcQ?v=9bZkp7q19f0") 8
       (py "dQw4w9WgXcQ")
  /\ extract_video_id (py "https://youtu.be/dQw4w9WgXcQ?v=9bZkp7q19f0")
     = inr (py "9bZkp7q19f0")
  /\ extract_video_id (py "https://youtu.be/dQw4w9WgXcQ?v=9bZkp7q19f0")
     <> inr (py "dQw4w9WgXcQ").
Proof.
  split; [simpl; auto|]. split.
  - exists (py "https://"), (py "youtu.be/"), (py "?v=9bZkp7q19f0").
    repeat split; simpl; auto.
  - split; [reflexivity | vm_compute; discriminate].
Qed.

(** C1 (amended): when a marker of one of the three recognized shapes is
    immediately followed in the URL by an 11-character token over
    [A-Za-z0-9_-], [extract_video_id] returns exactly that token provided
    the occurrence is the leftmost one of its shape and no shape that is
    tried earlier (watch, then short link, then shorts) occurs anywhere in
    the URL. *)
Theorem extract_video_id_recognized_shape url before ms after n tok :
  shapes = before ++ ms :: after ->
  (forall ms', In ms' before -> absent ms' url) ->
  leftmost ms url n tok ->
  extract_video_id url = inr tok.
Proof.
  intros E Habs Hl.
  destruct (@extract_by_shape url before ms after n tok E Habs (proj1 Hl))
    as (n' & tok' & _ & Hl' & ->).
  f_equal. apply (@leftmost_unique ms url n' tok' n tok); auto.
  rewrite E. apply in_elt.
Qed.

Lemma extract_video_id_recognized_shape_witness :
  extract_video_id (py "https://youtu.be/dQw4w9WgXcQ?feature=shared") = inr (py "dQw4w9WgXcQ").
Proof.
  apply (@extract_video_id_recognized_shape
           (py "https://youtu.be/dQw4w9WgXcQ?feature=shared")
           [markers_watch] markers_short [markers_shorts] 8 (py "dQw4w9WgXcQ")).
  - reflexivity.
  - intros ms' [<-|[]].
    apply (absent_by_search shape_watch prefix_free_watch). reflexivity.
  - apply (leftmost_by_matcher shape_short).
    + exists (py "https://"), (py "youtu.be/"), (py "?feature=shared").
      repeat split; simpl; auto.
    + reflexivity.
Defined.

(** C2: a string that is exactly an 11-character token over [A-Za-z0-9_-]
    matches none of the URL patterns and is returned unchanged; a string
    that matches none of the URL patterns and is not such a token raises
    [ValueError]. *)
Theorem extract_video_id_bare_string s :
  (is_video_id s = true ->
     (forall ms, In ms shapes -> absent ms s) /\ extract_video_id s = inr s)
  /\ ((forall ms, In ms shapes -> absent ms s) -> is_video_id s = false ->
      extract_video_id s
      = inl (ValueError (py "Could not extract a YouTube video ID from: " ++ s))).
Proof.
  assert (forall u, (forall ms, In ms shapes -> absent ms u) ->
            extract_video_id u =
            if is_video_id u then inr u
            else inl (ValueError (py "Could not extract a YouTube video ID from: " ++ u)))
    as Hnone.
  { intros u Habs. rewrite extract_unfold.
    rewrite (proj2 (search_absent_shape shape_watch u)) by (apply Habs; simpl; auto).
    rewrite (proj2 (search_absent_shape shape_short u)) by (apply Habs; simpl; auto).
    rewrite (proj2 (search_absent_shape shape_shorts u)) by (apply Habs; simpl; auto).
    reflexivity. }
  split.
  - intros Hid.
    assert (forall ms, In ms shapes -> absent ms s) as Habs
        by (intros ms Hin; apply video_id_absent; assumption).
    split; [exact Habs|]. rewrite (Hnone _ Habs), Hid. reflexivity.
  - intros Habs Hid. rewrite (Hnone _ Habs), Hid. reflexivity.
Qed.

Lemma no_shape_by_search url :
  Re.search pattern_watch url = None -> Re.search pattern_short url = None ->
  Re.search pattern_shorts url = None ->
  forall ms, In ms shapes -> absent ms url.
Proof.
  intros E1 E2 E3 ms [<-|[<-|[<-|[]]]].
  - exact (absent_by_search shape_watch prefix_free_watch E1).
  - exact (absent_by_search shape_short prefix_free_short E2).
  - exact (absent_by_search shape_shorts prefix_free_shorts E3).
Qed.

Lemma extract_video_id_bare_string_witness :
  extract_video_id (py "dQw4w9WgXcQ") = inr (py "dQw4w9WgXcQ")
  /\ extract_video_id (py "not a video")
     = inl (ValueError (py "Could not extract a YouTube video ID from: not a video")).
Proof.
  split.
  - apply (proj1 (extract_video_id_bare_string (py "dQw4w9WgXcQ"))). reflexivity.
  - apply (proj2 (extract_video_id_bare_string (py "not a video"))).
    + apply no_shape_by_search; reflexivity.
    + reflexivity.
Defined.

(** C9: the patterns are searched for anywhere in the input and tried in a
    fixed order, the first that is found deciding. So whenever a marker of a
    shape is immediately followed, at any offset of any string, by 11
    identifier characters, and no shape tried earlier occurs, the input is
    not a bare identifier and [extract_video_id] does not raise: it returns
    the token of the leftmost occurrence of that shape. *)
Theorem extract_video_id_searches_anywhere url before ms after n tok :
  shapes = before ++ ms :: after ->
  (forall ms', In ms' before -> absent ms' url) ->
  embedded ms url n tok ->
  exists n' tok',
    n' <= n /\ leftmost ms url n' tok' /\ extract_video_id url = inr tok'
    /\ is_video_id url = false.
Proof.
  intros E Habs H.
  destruct (@extract_by_shape url before ms after n tok E Habs H) as (n' & tok' & Hle & Hl & Hx).
  exists n', tok'. repeat split; try apply Hl; auto.
  destruct (is_video_id url) eqn:I; [exfalso|reflexivity].
  refine (@video_id_absent url ms _ I n tok H).
  rewrite E. apply in_elt.
Qed.

Lemma extract_video_id_searches_anywhere_witness :
  exists n' tok',
    n' <= 14 /\ leftmost markers_watch (py "build notes rev=12345678901 (draft)") n' tok'
    /\ extract_video_id (py "build notes rev=12345678901 (draft)") = inr tok'
    /\ is_video_id (py "build notes rev=12345678901 (draft)") = false.
Proof.
  apply (@extract_video_id_searches_anywhere
           (py "build notes rev=12345678901 (draft)")
           [] markers_watch [markers_short; markers_shorts] 14 (py "12345678901")).
  - reflexivity.
  - intros ms' [].
  - exists (py "build notes re"), (py "v="), (py " (draft)").
    repeat split; simpl; auto.
Defined.

(** ** The run as a trace *)

Arguments TRUNCATE_LIMIT : simpl never.
Arguments py : simpl never.
Arguments user_msg : simpl never.

Section Runs.

Variable w : world.

Lemma summarize_eq transcript prompt model :
  summarize w transcript prompt model =
  let key := str_of_opt (environ w API_KEY_VAR) in
  let content := user_msg prompt transcript in
  if opt_truthy (environ w API_KEY_VAR) then
    ([Getenv API_KEY_VAR; CompletionCall key model 4096 content],
     match messages_create w key model 4096 content with
     | inl e => inl (Raised e)
     | inr text => inr text
     end)
  else
    ([Getenv API_KEY_VAR; Stderr MISSING_KEY_1; Stderr MISSING_KEY_2], inl (SysExit 1)).
Proof.
  unfold summarize. destruct (opt_truthy (environ w API_KEY_VAR)); cbn [negb].
  - cbv zeta. destruct (messages_create w _ model 4096 _); reflexivity.
  - reflexivity.
Qed.

Lemma main_eq a :
  main w a =
  match extract_video_id (url a) with
  | inl e => ([], inl (Raised e))
  | inr vid =>
      match ytt_fetch w vid with
      | inl e => (fetch_events a vid, inl (Raised e))
      | inr f =>
          let transcript := format_transcript w f in
          let t1 := fetch_events a vid ++ save_events w a vid transcript in
          match prompt a with
          | None => (t1, inr tt)
          | Some p =>
              match summarize w transcript p (model a) with
              | (t2, inl s) => (t1 ++ summarizing_line a :: t2, inl s)
              | (t2, inr summary) =>
                  (t1 ++ summarizing_line a :: t2 ++ summary_events w a vid summary, inr tt)
              end
          end
      end
  end.
Proof.
  unfold main, fetch_transcript, save_events, fetch_events, summary_events, summarizing_line.
  destruct (extract_video_id (url a)) as [e|vid]; [reflexivity|].
  cbn [call ret bind emit print app].
  destruct (ytt_fetch w vid) as [e|f]; [reflexivity|].
  cbn [call ret bind emit print app].
  destruct (no_transcript a), (prompt a) as [p|]; cbn [negb call ret bind emit print app];
    try reflexivity;
    destruct (summarize w (format_transcript w f) p (model a)) as [t2 [s|summary]];
    cbn [call ret bind emit print app]; rewrite ?app_nil_r; reflexivity.
Qed.

End Runs.

(** ** [summarize] *)

Lemma truncate_short transcript :
  length transcript <= N.to_nat 100000 -> truncate transcript = transcript.
Proof. intros H. unfold truncate. apply firstn_all2. exact H. Qed.

(** C3: with the credential present, [summarize] makes one request to the
    completion service; the transcript text in its message is the first
    100,000 characters of the transcript, which is the whole transcript when
    it has at most 100,000 characters; nothing is printed, on either
    stream, so the truncation is silent. *)
Theorem summarize_sends_transcript_prefix (w : world) (transcript prompt model : str) :
  opt_truthy (environ w API_KEY_VAR) = true ->
  let instruction :=
    if str_truthy prompt then FOCUS_BEFORE ++ prompt ++ FOCUS_AFTER
    else DEFAULT_INSTRUCTION in
  let key := str_of_opt (environ w API_KEY_VAR) in
  fst (summarize w transcript prompt model)
  = [Getenv API_KEY_VAR;
     CompletionCall key model 4096 (instruction ++ firstn (N.to_nat 100000) transcript)]
  /\ (length transcript <= N.to_nat 100000 ->
      fst (summarize w transcript prompt model)
      = [Getenv API_KEY_VAR; CompletionCall key model 4096 (instruction ++ transcript)])
  /\ filter (fun e => on_stdout e || on_stderr e) (fst (summarize w transcript prompt model))
     = [].
Proof.
  intros Hkey instruction key.
  assert (user_msg prompt transcript = instruction ++ truncate transcript) as Hmsg.
  { unfold user_msg, instruction, focus_msg, default_msg.
    destruct (str_truthy prompt); rewrite <- ?app_assoc; reflexivity. }
  rewrite summarize_eq, Hkey. cbv zeta. cbn [fst]. rewrite Hmsg. fold key.
  split; [reflexivity|]. split; [|reflexivity].
  intros Hlen. rewrite (truncate_short _ Hlen). reflexivity.
Qed.

Lemma summarize_sends_transcript_prefix_witness :
  fst (summarize (stub_world (Some (py "sk-ant-test")) (inr (py "hello")) (inr (py "a summary")))
         (py "hello world") (py "key points?") (py "claude-haiku-4-5-20251001"))
  = [Getenv API_KEY_VAR;
     CompletionCall (py "sk-ant-test") (py "claude-haiku-4-5-20251001") 4096
       (FOCUS_BEFORE ++ py "key points?" ++ FOCUS_AFTER ++ py "hello world")].
Proof.
  refine (proj1 (proj2 (@summarize_sends_transcript_prefix
            (stub_world (Some (py "sk-ant-test")) (inr (py "hello")) (inr (py "a summary")))
            (py "hello world") (py "key points?") (py "claude-haiku-4-5-20251001") _)) _).
  - reflexivity.
  - apply Nat.leb_le. vm_compute. reflexivity.
Defined.

(** Whatever follows the first 100,000 characters is dropped. *)
Lemma truncate_long (body rest : str) :
  length body = N.to_nat 100000 -> truncate (body ++ rest) = body.
Proof.
  intros H. unfold truncate, TRUNCATE_LIMIT.
  rewrite <- H, firstn_app, Nat.sub_diag, firstn_all. simpl. apply app_nil_r.
Qed.

(** ** Runs of the script *)

(** Case analysis on how far a run gets: the extraction raises, the
    transcript fetch raises, or both succeed. *)
Ltac run_cases w a vid f :=
  destruct (extract_video_id (url a)) as [?e|vid] eqn:Hx;
  [unfold run; rewrite main_eq, Hx
  |destruct (ytt_fetch w vid) as [?e|f] eqn:Hf;
   [unfold run; rewrite main_eq, Hx, Hf|]].

Lemma save_events_no_calls w a vid tr :
  filter is_completion_call (save_events w a vid tr) = []
  /\ filter is_getenv (save_events w a vid tr) = []
  /\ filter on_stderr (save_events w a vid tr) = [].
Proof. unfold save_events. destruct (no_transcript a); auto. Qed.

Lemma summarize_missing_key w transcript p model :
  opt_truthy (environ w API_KEY_VAR) = false ->
  summarize w transcript p model
  = ([Getenv API_KEY_VAR; Stderr MISSING_KEY_1; Stderr MISSING_KEY_2], inl (SysExit 1)).
Proof. intros Hkey. rewrite summarize_eq, Hkey. reflexivity. Qed.

Lemma run_missing_key w a p vid f :
  prompt a = Some p ->
  opt_truthy (environ w API_KEY_VAR) = false ->
  extract_video_id (url a) = inr vid -> ytt_fetch w vid = inr f ->
  run w a
  = (fetch_events a vid ++ save_events w a vid (format_transcript w f)
       ++ [summarizing_line a; Getenv API_KEY_VAR;
           Stderr MISSING_KEY_1; Stderr MISSING_KEY_2], 1%Z).
Proof.
  intros Hp Hkey Hx Hf. unfold run. rewrite main_eq, Hx, Hf. cbv zeta.
  rewrite Hp, (summarize_missing_key _ _ _ _ Hkey), <- app_assoc. reflexivity.
Qed.

(** C4: when summarization is requested and [ANTHROPIC_API_KEY] is unset or
    empty, the process ends with a non-zero exit status, something is
    printed on the error stream and the completion service is never called;
    [summarize] itself prints its two-line error and calls [sys.exit(1)], so
    a run that gets as far as summarizing exits with status 1 and exactly
    those two lines on the error stream. *)
Theorem missing_credential_is_fatal (w : world) (a : args) (p : str) :
  prompt a = Some p ->
  opt_truthy (environ w API_KEY_VAR) = false ->
  snd (run w a) <> 0%Z
  /\ existsb on_stderr (fst (run w a)) = true
  /\ filter is_completion_call (fst (run w a)) = []
  /\ (forall transcript model,
        summarize w transcript p model
        = ([Getenv API_KEY_VAR; Stderr MISSING_KEY_1; Stderr MISSING_KEY_2], inl (SysExit 1)))
  /\ (forall vid f, extract_video_id (url a) = inr vid -> ytt_fetch w vid = inr f ->
        snd (run w a) = 1%Z
        /\ filter on_stderr (fst (run w a)) = [Stderr MISSING_KEY_1; Stderr MISSING_KEY_2]).
Proof.
  intros Hp Hkey.
  split; [|split; [|split; [|split]]].
  - run_cases w a vid f; [discriminate | discriminate |].
    rewrite (run_missing_key _ _ Hp Hkey Hx Hf). discriminate.
  - run_cases w a vid f.
    + reflexivity.
    + cbn [fst]. rewrite existsb_app. apply orb_true_r.
    + rewrite (run_missing_key _ _ Hp Hkey Hx Hf). cbn [fst].
      rewrite !existsb_app. cbn [existsb on_stderr].
      rewrite !orb_true_r. reflexivity.
  - run_cases w a vid f; [reflexivity | reflexivity |].
    rewrite (run_missing_key _ _ Hp Hkey Hx Hf). cbn [fst]. rewrite !filter_app.
    rewrite (proj1 (save_events_no_calls w a vid _)). reflexivity.
  - intros. apply summarize_missing_key, Hkey.
  - intros vid f Hx Hf. rewrite (run_missing_key _ _ Hp Hkey Hx Hf). cbn [fst snd].
    split; [reflexivity|]. rewrite !filter_app.
    rewrite (proj2 (proj2 (save_events_no_calls w a vid _))). reflexivity.
Qed.

Lemma missing_credential_is_fatal_witness :
  snd (run (stub_world None (inr (py "hello")) (inr (py "a summary")))
           {| url := py "https://youtu.be/dQw4w9WgXcQ"; prompt := Some [];
              output_dir := py "."; model := py "claude-haiku-4-5-20251001";
              no_transcript := false |}) <> 0%Z.
Proof.
  refine (proj1 (@missing_credential_is_fatal
            (stub_world None (inr (py "hello")) (inr (py "a summary")))
            {| url := py "https://youtu.be/dQw4w9WgXcQ"; prompt := Some [];
               output_dir := py "."; model := py "claude-haiku-4-5-20251001";
               no_transcript := false |} [] _ _)); reflexivity.
Defined.

Lemma no_getenv_no_split l t1 v t2 :
  filter is_getenv l = [] -> l <> t1 ++ Getenv v :: t2.
Proof.
  intros F ->. rewrite filter_app in F. apply app_eq_nil in F as [_ F]. discriminate F.
Qed.

(** C5 (as stated) fails: summarization is requested and the credential is
    unset, yet the transcript service is called before the fatal error,
    because the credential is read only inside [summarize]. *)
Lemma fetch_precedes_credential_check :
  prompt args_default_summary = Some []
  /\ environ world_without_key API_KEY_VAR = None
  /\ run world_without_key args_default_summary
     = ([Mkdir (py "out");
         Stdout (py "Fetching transcript for video: dQw4w9WgXcQ ...");
         FetchCall (py "dQw4w9WgXcQ");
         Stdout (py "Summarizing with claude-haiku-4-5-20251001 ...");
         Getenv API_KEY_VAR;
         Stderr MISSING_KEY_1;
         Stderr MISSING_KEY_2], 1%Z)
  /\ filter is_network_call (fst (run world_without_key args_default_summary))
     = [FetchCall (py "dQw4w9WgXcQ")].
Proof. repeat split; reflexivity. Qed.

Lemma getenv_split_unique l1 v0 l2 t1 v t2 :
  filter is_getenv l1 = [] -> filter is_getenv l2 = [] ->
  l1 ++ Getenv v0 :: l2 = t1 ++ Getenv v :: t2 ->
  t1 = l1 /\ v = v0 /\ t2 = l2.
Proof.
  revert t1; induction l1 as [|x l1 IH]; intros t1 F1 F2 E.
  - destruct t1 as [|y t1]; simpl in E.
    + injection E as -> ->. auto.
    + injection E as _ E. exfalso. revert E. apply no_getenv_no_split. exact F2.
  - destruct t1 as [|y t1]; simpl in E; injection E as -> E.
    + discriminate F1.
    + simpl in F1. destruct (is_getenv y); [discriminate|].
      destruct (IH _ F1 F2 E) as (-> & -> & ->). auto.
Qed.

(** Where the credential is read in a run: nowhere, or once, right after
    the line that announces the summarization. *)
Lemma run_getenv_split w a :
  filter is_getenv (fst (run w a)) = []
  \/ exists vid f p rest,
       extract_video_id (url a) = inr vid /\ ytt_fetch w vid = inr f
       /\ prompt a = Some p
       /\ filter is_getenv rest = []
       /\ fst (run w a)
          = (fetch_events a vid ++ save_events w a vid (format_transcript w f)
               ++ [summarizing_line a])
            ++ Getenv API_KEY_VAR :: rest.
Proof.
  run_cases w a vid f; [left; reflexivity | left; reflexivity |].
  destruct (prompt a) as [p|] eqn:Hp.
  - right. exists vid, f, p.
    unfold run. rewrite main_eq, Hx, Hf. cbv zeta. rewrite Hp, summarize_eq. cbv zeta.
    destruct (opt_truthy (environ w API_KEY_VAR));
      [destruct (messages_create w _ (model a) 4096 _) as [e|summary]|];
      cbn [fst]; eexists; (split; [reflexivity|]); (split; [reflexivity|]);
      (split; [reflexivity|]); (split; [|rewrite <- !app_assoc; cbn [app]; reflexivity]);
      reflexivity.
  - left. unfold run. rewrite main_eq, Hx, Hf. cbv zeta. rewrite Hp. cbn [fst].
    rewrite filter_app, (proj1 (proj2 (save_events_no_calls w a vid _))). reflexivity.
Qed.

(** C5 (amended): the credential is read only when summarization is
    requested, and only inside [summarize], after the transcript has been
    fetched. When it is requested and the credential is absent, the run
    fails with the two-line error message and a non-zero exit status before
    any call to the completion service; the transcript fetch, a network
    call, has already been made when the credential is read. *)
Theorem credential_checked_before_completion (w : world) (a : args) :
  (prompt a = None -> filter is_getenv (fst (run w a)) = [])
  /\ (forall t1 v t2, fst (run w a) = t1 ++ Getenv v :: t2 ->
        v = API_KEY_VAR
        /\ filter is_getenv t2 = []
        /\ exists vid f p,
             extract_video_id (url a) = inr vid /\ ytt_fetch w vid = inr f
             /\ prompt a = Some p
             /\ t1 = fetch_events a vid ++ save_events w a vid (format_transcript w f)
                       ++ [summarizing_line a]
             /\ In (FetchCall vid) t1
             /\ filter is_completion_call t1 = [])
  /\ (forall p, prompt a = Some p -> opt_truthy (environ w API_KEY_VAR) = false ->
        filter is_completion_call (fst (run w a)) = []
        /\ snd (run w a) <> 0%Z
        /\ (forall t1 v t2, fst (run w a) = t1 ++ Getenv v :: t2 ->
              exists vid, In (FetchCall vid) t1)
        /\ (forall vid f,
              extract_video_id (url a) = inr vid -> ytt_fetch w vid = inr f ->
              run w a
              = (fetch_events a vid ++ save_events w a vid (format_transcript w f)
                   ++ [summarizing_line a; Getenv API_KEY_VAR;
                       Stderr MISSING_KEY_1; Stderr MISSING_KEY_2], 1%Z))).
Proof.
  assert (forall t1 v t2, fst (run w a) = t1 ++ Getenv v :: t2 ->
            v = API_KEY_VAR
            /\ filter is_getenv t2 = []
            /\ exists vid f p,
                 extract_video_id (url a) = inr vid /\ ytt_fetch w vid = inr f
                 /\ prompt a = Some p
                 /\ t1 = fetch_events a vid
                           ++ save_events w a vid (format_transcript w f)
                           ++ [summarizing_line a]
                 /\ In (FetchCall vid) t1
                 /\ filter is_completion_call t1 = []) as Horder.
  { intros t1 v t2 E.
    destruct (run_getenv_split w a) as [F|(vid & f & p & rest & Hx & Hf & Hp & Fr & R)].
    - exfalso. revert E. apply no_getenv_no_split. exact F.
    - rewrite R in E. symmetry in E.
      assert (filter is_getenv
                (fetch_events a vid ++ save_events w a vid (format_transcript w f)
                   ++ [summarizing_line a]) = []) as F1
          by (rewrite !filter_app, (proj1 (proj2 (save_events_no_calls w a vid _)));
              reflexivity).
      destruct (@getenv_split_unique _ _ _ _ _ _ F1 Fr (eq_sym E)) as (-> & -> & ->).
      split; [reflexivity|]. split; [exact Fr|].
      exists vid, f, p. repeat split; auto.
      + apply in_or_app. left. simpl. auto.
      + rewrite !filter_app, (proj1 (save_events_no_calls w a vid _)). reflexivity. }
  split; [|split; [exact Horder|]].
  - intros Hp. run_cases w a vid f; [reflexivity | reflexivity |].
    unfold run. rewrite main_eq, Hx, Hf. cbv zeta. rewrite Hp. cbn [fst].
    rewrite filter_app, (proj1 (proj2 (save_events_no_calls w a vid _))). reflexivity.
  - intros p Hp Hkey. split; [|split; [|split]].
    + run_cases w a vid f; [reflexivity | reflexivity |].
      rewrite (run_missing_key _ _ Hp Hkey Hx Hf). cbn [fst]. rewrite !filter_app.
      rewrite (proj1 (save_events_no_calls w a vid _)). reflexivity.
    + run_cases w a vid f; [discriminate | discriminate |].
      rewrite (run_missing_key _ _ Hp Hkey Hx Hf). discriminate.
    + intros t1 v t2 E.
      destruct (Horder _ _ _ E) as (_ & _ & vid & f & q & _ & _ & _ & _ & Hin & _).
      exists vid. exact Hin.
    + intros vid f Hx Hf. exact (run_missing_key _ _ Hp Hkey Hx Hf).
Qed.

Lemma credential_checked_before_completion_witness :
  (filter is_completion_call (fst (run world_without_key args_default_summary)) = []
   /\ snd (run world_without_key args_default_summary) <> 0%Z)
  /\ exists vid,
       In (FetchCall vid)
          [Mkdir (py "out");
           Stdout (py "Fetching transcript for video: dQw4w9WgXcQ ...");
           FetchCall (py "dQw4w9WgXcQ");
           Stdout (py "Summarizing with claude-haiku-4-5-20251001 ...")].
Proof.
  split.
  - pose proof (proj2 (proj2 (credential_checked_before_completion world_without_key
                                args_default_summary)) [] eq_refl eq_refl) as H.
    exact (conj (proj1 H) (proj1 (proj2 H))).
  - destruct (proj1 (proj2 (credential_checked_before_completion world_with_key
                              args_default_summary))
                [Mkdir (py "out");
                 Stdout (py "Fetching transcript for video: dQw4w9WgXcQ ...");
                 FetchCall (py "dQw4w9WgXcQ");
                 Stdout (py "Summarizing with claude-haiku-4-5-20251001 ...")]
                API_KEY_VAR
                [CompletionCall (py "sk-ant-test") (py "claude-haiku-4-5-20251001") 4096
                   (user_msg [] (py "hello"));
                 WriteText {| parent := py "out"; name := py "summary-dQw4w9WgXcQ.txt" |}
                   (py "a summary");
                 Stdout (py "Summary saved:    out/summary-dQw4w9WgXcQ.txt  (9 chars)")]
                eq_refl)
      as (_ & _ & vid & f & p & _ & _ & _ & _ & Hin & _).
    exists vid. exact Hin.
Defined.

(** Membership in a trace built from segments with [++]. *)
Ltac in_trace :=
  first [ solve [simpl; tauto]
        | apply in_or_app; first [ solve [right; in_trace] | solve [left; in_trace] ] ].

Lemma run_with_key w a p vid f :
  prompt a = Some p ->
  opt_truthy (environ w API_KEY_VAR) = true ->
  extract_video_id (url a) = inr vid -> ytt_fetch w vid = inr f ->
  let transcript := format_transcript w f in
  let key := str_of_opt (environ w API_KEY_VAR) in
  let content := user_msg p transcript in
  let t := fetch_events a vid ++ save_events w a vid transcript
             ++ [summarizing_line a; Getenv API_KEY_VAR;
                 CompletionCall key (model a) 4096 content] in
  run w a =
  match messages_create w key (model a) 4096 content with
  | inl e => (t ++ [Traceback e], 1%Z)
  | inr summary => (t ++ summary_events w a vid summary, 0%Z)
  end.
Proof.
  intros Hp Hkey Hx Hf. cbv zeta. unfold run. rewrite main_eq, Hx, Hf. cbv zeta.
  rewrite Hp, summarize_eq, Hkey. cbv zeta.
  destruct (messages_create w _ (model a) 4096 _) as [e|summary];
    rewrite <- !app_assoc; reflexivity.
Qed.

(** C6: when the prompt flag is supplied, summarization is enabled: a run
    whose identifier extraction and transcript fetch succeed announces the
    summarization and reads the credential, and, with the credential
    present, sends exactly one message to the completion service. For the
    empty prompt the message is the default general-summary instruction
    followed by the (truncated) transcript; for a non-empty prompt it holds
    the prompt verbatim, between the fixed texts of the focus instruction. *)
Theorem prompt_selects_instruction (w : world) (a : args) (p vid : str) (f : fetched w) :
  prompt a = Some p ->
  extract_video_id (url a) = inr vid ->
  ytt_fetch w vid = inr f ->
  In (summarizing_line a) (fst (run w a))
  /\ In (Getenv API_KEY_VAR) (fst (run w a))
  /\ (opt_truthy (environ w API_KEY_VAR) = true ->
      filter is_completion_call (fst (run w a))
      = [CompletionCall (str_of_opt (environ w API_KEY_VAR)) (model a) 4096
           (match p with
            | [] => DEFAULT_INSTRUCTION ++ truncate (format_transcript w f)
            | _ :: _ => FOCUS_BEFORE ++ p ++ FOCUS_AFTER ++ truncate (format_transcript w f)
            end)]).
Proof.
  intros Hp Hx Hf.
  assert (user_msg p (format_transcript w f)
          = match p with
            | [] => DEFAULT_INSTRUCTION ++ truncate (format_transcript w f)
            | _ :: _ => FOCUS_BEFORE ++ p ++ FOCUS_AFTER ++ truncate (format_transcript w f)
            end) as Hmsg by (destruct p; reflexivity).
  destruct (opt_truthy (environ w API_KEY_VAR)) eqn:Hkey.
  - pose proof (run_with_key _ _ Hp Hkey Hx Hf) as R. cbv zeta in R.
    rewrite Hmsg in R.
    destruct (messages_create w _ (model a) 4096 _) as [e|summary]; rewrite R; cbn [fst];
      (split; [|split]);
      try (intros _; rewrite !filter_app, (proj1 (save_events_no_calls w a vid _));
           reflexivity);
      in_trace.
  - rewrite (run_missing_key _ _ Hp Hkey Hx Hf). cbn [fst].
    split; [|split]; [| |discriminate];
      in_trace.
Qed.

Lemma prompt_selects_instruction_witness :
  filter is_completion_call
    (fst (run (stub_world (Some (py "sk-ant-test")) (inr (py "hello")) (inr (py "a summary")))
              args_default_summary))
  = [CompletionCall (py "sk-ant-test") (py "claude-haiku-4-5-20251001") 4096
       (DEFAULT_INSTRUCTION ++ py "hello")].
Proof.
  refine (proj2 (proj2 (@prompt_selects_instruction
            (stub_world (Some (py "sk-ant-test")) (inr (py "hello")) (inr (py "a summary")))
            args_default_summary [] (py "dQw4w9WgXcQ") (py "hello") _ _ _)) _);
    reflexivity.
Defined.

(** ** Files *)

Lemma path_eqb_refl p : path_eqb p p = true.
Proof. unfold path_eqb. rewrite !str_eqb_refl. reflexivity. Qed.

Lemma file_after_app t t' p :
  file_after (t ++ t') p =
  match file_after t' p with
  | Some x => Some x
  | None => file_after t p
  end.
Proof.
  induction t as [|e t IH]; simpl.
  - destruct (file_after t' p); reflexivity.
  - rewrite IH. destruct (file_after t' p); reflexivity.
Qed.

Lemma written_names_app t t' : written_names (t ++ t') = written_names t ++ written_names t'.
Proof.
  induction t as [|e t IH]; simpl; [reflexivity|].
  destruct e; simpl; rewrite IH; reflexivity.
Qed.

Lemma summarize_writes_nothing w transcript p m :
  written_names (fst (summarize w transcript p m)) = [].
Proof.
  rewrite summarize_eq. cbv zeta. destruct (opt_truthy _); reflexivity.
Qed.

(** The files a run writes: the transcript file unless suppressed, then
    the summary file when [summarize] returned. *)
Lemma run_written_names w a :
  written_names (fst (run w a)) =
  match extract_video_id (url a) with
  | inl _ => []
  | inr vid =>
      match ytt_fetch w vid with
      | inl _ => []
      | inr f =>
          (if no_transcript a then [] else [transcript_name vid])
          ++ match prompt a with
             | None => []
             | Some p =>
                 match snd (summarize w (format_transcript w f) p (model a)) with
                 | inl _ => []
                 | inr _ => [summary_name vid]
                 end
             end
      end
  end.
Proof.
  run_cases w a vid f; [reflexivity | reflexivity |].
  unfold run. rewrite main_eq, Hx, Hf. cbv zeta.
  assert (written_names (save_events w a vid (format_transcript w f))
          = if no_transcript a then [] else [transcript_name vid]) as Hs
      by (unfold save_events; destruct (no_transcript a); reflexivity).
  destruct (prompt a) as [p|].
  - pose proof (summarize_writes_nothing w (format_transcript w f) p (model a)) as Hn.
    destruct (summarize w (format_transcript w f) p (model a)) as [t2 [[e|c]|summary]];
      cbn [fst snd] in *;
      rewrite ?written_names_app; cbn [written_names];
      rewrite ?written_names_app, ?Hn, ?Hs; cbn [written_names fetch_events app];
      rewrite ?app_nil_r; reflexivity.
  - cbn [fst]. rewrite written_names_app, Hs, app_nil_r. reflexivity.
Qed.

Lemma summary_is_not_transcript vid id : summary_name vid <> transcript_name id.
Proof. unfold summary_name, transcript_name. intros E. vm_compute in E. discriminate E. Qed.

(** C7: with [--no-transcript] no run writes a file named
    [transcript-<id>.txt]; and when a prompt was supplied as well and the
    summarization succeeds, the run ends with [summary-<id>.txt] in the
    output directory, holding the summary, and with exit status 0. *)
Theorem no_transcript_keeps_summary (w : world) (a : args) :
  no_transcript a = true ->
  (forall id, ~ In (transcript_name id) (written_names (fst (run w a))))
  /\ (forall p vid f summary,
        prompt a = Some p ->
        extract_video_id (url a) = inr vid ->
        ytt_fetch w vid = inr f ->
        snd (summarize w (format_transcript w f) p (model a)) = inr summary ->
        file_after (fst (run w a)) {| parent := output_dir a; name := summary_name vid |}
        = Some summary
        /\ written_names (fst (run w a)) = [summary_name vid]
        /\ snd (run w a) = 0%Z).
Proof.
  intros Hno. split.
  - intros id. rewrite run_written_names, Hno.
    destruct (extract_video_id (url a)) as [e|vid]; [auto|].
    destruct (ytt_fetch w vid) as [e|f]; [auto|].
    destruct (prompt a) as [p|]; [|auto].
    destruct (snd (summarize w (format_transcript w f) p (model a))); [auto|].
    intros [E|[]]. exact (summary_is_not_transcript E).
  - intros p vid f summary Hp Hx Hf Hs.
    split; [|split].
    + unfold run. rewrite main_eq, Hx, Hf. cbv zeta. rewrite Hp.
      destruct (summarize w (format_transcript w f) p (model a)) as [t2 r].
      cbn [snd] in Hs. subst r. cbn [fst].
      rewrite app_comm_cons, !app_assoc, file_after_app.
      unfold summary_events. cbn [file_after]. rewrite path_eqb_refl. reflexivity.
    + rewrite run_written_names, Hx, Hf, Hno, Hp, Hs. reflexivity.
    + unfold run. rewrite main_eq, Hx, Hf. cbv zeta. rewrite Hp.
      destruct (summarize w (format_transcript w f) p (model a)) as [t2 r].
      cbn [snd] in Hs. subst r. reflexivity.
Qed.

Lemma no_transcript_keeps_summary_witness :
  (forall id,
     ~ In (transcript_name id)
          (written_names
             (fst (run (stub_world (Some (py "sk-ant-test")) (inr (py "hello"))
                          (inr (py "a summary")))
                       args_default_summary))))
  /\ file_after
       (fst (run (stub_world (Some (py "sk-ant-test")) (inr (py "hello"))
                    (inr (py "a summary")))
                 args_default_summary))
       {| parent := py "out"; name := py "summary-dQw4w9WgXcQ.txt" |}
     = Some (py "a summary").
Proof.
  pose proof (@no_transcript_keeps_summary
                (stub_world (Some (py "sk-ant-test")) (inr (py "hello"))
                   (inr (py "a summary")))
                args_default_summary eq_refl) as H.
  split; [exact (proj1 H)|].
  exact (proj1 (proj2 H [] (py "dQw4w9WgXcQ") (py "hello") (py "a summary")
                  eq_refl eq_refl eq_refl eq_refl)).
Defined.

Lemma extract_short_link :
  extract_video_id (py "https://youtu.be/dQw4w9WgXcQ") = inr (py "dQw4w9WgXcQ").
Proof. reflexivity. Qed.

(** C8: a run on ["https://youtu.be/dQw4w9WgXcQ"] without the prompt flag
    (and without [--no-transcript]) whose transcript fetch succeeds creates
    the output directory, fetches the transcript of [dQw4w9WgXcQ], writes
    exactly the fetched text to [transcript-dQw4w9WgXcQ.txt] in the output
    directory, prints the number of characters of the transcript, calls the
    completion service not at all and exits with status 0. *)
Theorem transcript_only_run (w : world) (a : args) (f : fetched w) :
  url a = py "https://youtu.be/dQw4w9WgXcQ" ->
  prompt a = None ->
  no_transcript a = false ->
  ytt_fetch w (py "dQw4w9WgXcQ") = inr f ->
  let transcript := format_transcript w f in
  let transcript_path :=
    {| parent := output_dir a; name := py "transcript-dQw4w9WgXcQ.txt" |} in
  run w a
  = ([Mkdir (output_dir a);
      Stdout (py "Fetching transcript for video: dQw4w9WgXcQ ...");
      FetchCall (py "dQw4w9WgXcQ");
      WriteText transcript_path transcript;
      Stdout (py "Transcript saved: " ++ path_str w transcript_path
              ++ py "  (" ++ str_of_nat (length transcript) ++ py " chars)")],
     0%Z)
  /\ file_after (fst (run w a)) transcript_path = Some transcript
  /\ filter is_completion_call (fst (run w a)) = [].
Proof.
  intros Hu Hp Hno Hf transcript transcript_path.
  assert (run w a
          = ([Mkdir (output_dir a);
              Stdout (py "Fetching transcript for video: dQw4w9WgXcQ ...");
              FetchCall (py "dQw4w9WgXcQ");
              WriteText transcript_path transcript;
              Stdout (py "Transcript saved: " ++ path_str w transcript_path
                      ++ py "  (" ++ str_of_nat (length transcript) ++ py " chars)")],
             0%Z)) as R.
  { unfold run. rewrite main_eq, Hu, extract_short_link, Hf. cbv zeta. rewrite Hp.
    unfold save_events. rewrite Hno. reflexivity. }
  rewrite R. split; [reflexivity|]. split; [|reflexivity].
  cbn [fst file_after]. rewrite path_eqb_refl. reflexivity.
Qed.

Lemma transcript_only_run_witness :
  run (stub_world None (inr (py "hello")) (inl (ServiceError (py "unused"))))
      (default_args (py "https://youtu.be/dQw4w9WgXcQ"))
  = ([Mkdir (py ".");
      Stdout (py "Fetching transcript for video: dQw4w9WgXcQ ...");
      FetchCall (py "dQw4w9WgXcQ");
      WriteText {| parent := py "."; name := py "transcript-dQw4w9WgXcQ.txt" |} (py "hello");
      Stdout (py "Transcript saved: transcript-dQw4w9WgXcQ.txt  (5 chars)")],
     0%Z).
Proof.
  exact (proj1 (@transcript_only_run
                  (stub_world None (inr (py "hello")) (inl (ServiceError (py "unused"))))
                  (default_args (py "https://youtu.be/dQw4w9WgXcQ")) (py "hello")
                  eq_refl eq_refl eq_refl eq_refl)).
Defined.

(** C10: whenever [extract_video_id] returns, its result has exactly 11
    characters, all of them in [A-Za-z0-9_-]; hence every file a run writes
    is named [transcript-<id>.txt] or [summary-<id>.txt] for the well-formed
    identifier [<id>] extracted from the URL argument. *)
Theorem extracted_id_well_formed (url0 tok : str) :
  extract_video_id url0 = inr tok ->
  (length tok = 11 /\ forall c, In c tok -> id_char c = true)
  /\ is_video_id tok = true
  /\ (forall (w : world) (a : args) (nm : str),
        url a = url0 -> In nm (written_names (fst (run w a))) ->
        nm = transcript_name tok \/ nm = summary_name tok).
Proof.
  intros Hx. pose proof (extract_video_id_well_formed _ Hx) as Hid.
  split; [|split; [exact Hid|]].
  - unfold is_video_id in Hid. apply andb_true_iff in Hid as [L F].
    apply Nat.eqb_eq in L. rewrite forallb_forall in F. auto.
  - intros w a nm Hu. rewrite run_written_names, Hu, Hx.
    destruct (ytt_fetch w tok) as [e|f]; [intros []|].
    intros H. apply in_app_or in H as [H|H].
    + destruct (no_transcript a); [destruct H|]. destruct H as [<-|[]]. auto.
    + destruct (prompt a) as [p|]; [|destruct H].
      destruct (snd (summarize w (format_transcript w f) p (model a))); [destruct H|].
      destruct H as [<-|[]]. auto.
Qed.

Lemma extracted_id_well_formed_witness :
  is_video_id (py "abc123def45") = true.
Proof.
  exact (proj1 (proj2 (@extracted_id_well_formed
                         (py "https://www.youtube.com/watch?v=abc123def45")
                         (py "abc123def45") eq_refl))).
Defined.

(** ** Concrete runs *)

Example extract_watch :
  extract_video_id (py "https://www.youtube.com/watch?v=abc123def45") = inr (py "abc123def45").
Proof. reflexivity. Qed.

Example extract_shorts :
  extract_video_id (py "https://www.youtube.com/shorts/dQw4w9WgXcQ?feature=share")
  = inr (py "dQw4w9WgXcQ").
Proof. reflexivity. Qed.

Example extract_embed_v :
  extract_video_id (py "https://www.youtube.com/v/dQw4w9WgXcQ") = inr (py "dQw4w9WgXcQ").
Proof. reflexivity. Qed.

Example extract_bare : extract_video_id (py "dQw4w9WgXcQ") = inr (py "dQw4w9WgXcQ").
Proof. reflexivity. Qed.

Example extract_too_short :
  extract_video_id (py "dQw4w9WgXc")
  = inl (ValueError (py "Could not extract a YouTube video ID from: dQw4w9WgXc")).
Proof. reflexivity. Qed.

Example extract_leftmost_of_two :
  extract_video_id (py "https://www.youtube.com/watch?v=abc123def45&v=dQw4w9WgXcQ")
  = inr (py "abc123def45").
Proof. reflexivity. Qed.

(** A run that saves the transcript and a focused summary. *)
Example run_with_summary :
  run (stub_world (Some (py "sk-ant-test")) (inr (py "hello")) (inr (py "a summary")))
      {| url := py "https://youtu.be/dQw4w9WgXcQ"; prompt := Some (py "key points?");
         output_dir := py "out"; model := py "claude-haiku-4-5-20251001";
         no_transcript := false |}
  = ([Mkdir (py "out");
      Stdout (py "Fetching transcript for video: dQw4w9WgXcQ ...");
      FetchCall (py "dQw4w9WgXcQ");
      WriteText {| parent := py "out"; name := py "transcript-dQw4w9WgXcQ.txt" |} (py "hello");
      Stdout (py "Transcript saved: out/transcript-dQw4w9WgXcQ.txt  (5 chars)");
      Stdout (py "Summarizing with claude-haiku-4-5-20251001 ...");
      Getenv API_KEY_VAR;
      CompletionCall (py "sk-ant-test") (py "claude-haiku-4-5-20251001") 4096
        (FOCUS_BEFORE ++ py "key points?" ++ FOCUS_AFTER ++ py "hello");
      WriteText {| parent := py "out"; name := py "summary-dQw4w9WgXcQ.txt" |}
        (py "a summary");
      Stdout (py "Summary saved:    out/summary-dQw4w9WgXcQ.txt  (9 chars)")],
     0%Z).
Proof. reflexivity. Qed.

(** A run whose transcript fetch fails stops there, with a traceback. *)
Example run_fetch_fails :
  run (stub_world None (inl (ServiceError (py "no transcript"))) (inr (py "a summary")))
      (default_args (py "dQw4w9WgXcQ"))
  = ([Mkdir (py ".");
      Stdout (py "Fetching transcript for video: dQw4w9WgXcQ ...");
      FetchCall (py "dQw4w9WgXcQ");
      Traceback (ServiceError (py "no transcript"))],
     1%Z).
Proof. reflexivity. Qed.

(** * Further properties of the code *)

(** ** [extract_video_id]: errors, bounds and composition *)

Lemma extract_no_shape url :
  (forall ms, In ms shapes -> absent ms url) ->
  extract_video_id url = if is_video_id url then inr url else inl (invalid_input url).
Proof.
  intros Habs. rewrite extract_unfold.
  rewrite (proj2 (search_absent_shape shape_watch url)) by (apply Habs; simpl; auto).
  rewrite (proj2 (search_absent_shape shape_short url)) by (apply Habs; simpl; auto).
  rewrite (proj2 (search_absent_shape shape_shorts url)) by (apply Habs; simpl; auto).
  reflexivity.
Qed.

Lemma shape_pattern ms :
  In ms shapes -> exists p, In p patterns /\ shape_of p ms /\ prefix_free ms.
Proof.
  simpl. intros [<-|[<-|[<-|[]]]].
  - exists pattern_watch; repeat split; simpl; auto using prefix_free_watch; apply shape_watch.
  - exists pattern_short; repeat split; simpl; auto using prefix_free_short; apply shape_short.
  - exists pattern_shorts; repeat split; simpl; auto using prefix_free_shorts;
      apply shape_shorts.
Qed.

(** X13: [extract_video_id] raises exactly when none of the three shapes
    occurs anywhere in the input and the input is not itself a well-formed
    identifier; the exception is then the [ValueError] whose message ends
    with the input, verbatim. *)
Theorem extract_video_id_raises_iff (url0 : str) (e : exn) :
  extract_video_id url0 = inl e <->
  (forall ms, In ms shapes -> absent ms url0)
  /\ is_video_id url0 = false
  /\ e = ValueError (py "Could not extract a YouTube video ID from: " ++ url0).
Proof.
  split.
  - intros H. rewrite extract_unfold in H.
    destruct (Re.search pattern_watch url0) eqn:E1; [discriminate|].
    destruct (Re.search pattern_short url0) eqn:E2; [discriminate|].
    destruct (Re.search pattern_shorts url0) eqn:E3; [discriminate|].
    destruct (is_video_id url0); [discriminate|]. injection H as <-.
    split; [|auto]. apply no_shape_by_search; assumption.
  - intros (Habs & Hid & ->). rewrite (extract_no_shape Habs), Hid. reflexivity.
Qed.

Lemma marker_length ms m : In ms shapes -> In m ms -> 2 <= length m.
Proof.
  simpl. intros [<-|[<-|[<-|[]]]]; simpl; intros H; intuition (subst; simpl; lia).
Qed.

Lemma embedded_min_length ms url0 n tok :
  In ms shapes -> embedded ms url0 n tok -> 13 <= length url0.
Proof.
  intros Hin (pre & m & post & -> & _ & Hm & Hid).
  pose proof (@marker_length ms m Hin Hm).
  rewrite !length_app, (is_video_id_length _ Hid). lia.
Qed.

(** X12: an input of fewer than 13 characters is never read as a URL: it
    is returned unchanged when it is a well-formed identifier and rejected
    with [ValueError] otherwise. In particular the empty string and every
    input of fewer than 11 characters are rejected. *)
Theorem extract_video_id_short_input (url0 : str) :
  length url0 < 13 ->
  extract_video_id url0
  = (if is_video_id url0 then inr url0
     else inl (ValueError (py "Could not extract a YouTube video ID from: " ++ url0)))
  /\ (length url0 < 11 ->
      extract_video_id url0
      = inl (ValueError (py "Could not extract a YouTube video ID from: " ++ url0))).
Proof.
  intros Hlen.
  assert (forall ms, In ms shapes -> absent ms url0) as Habs.
  { intros ms Hin n tok H. apply (@embedded_min_length ms url0 n tok Hin) in H. lia. }
  split; [apply (extract_no_shape Habs)|].
  intros Hlt. rewrite (extract_no_shape Habs).
  destruct (is_video_id url0) eqn:I; [|reflexivity].
  apply is_video_id_length in I. lia.
Qed.

Lemma extract_video_id_short_input_witness :
  extract_video_id []
  = inl (ValueError (py "Could not extract a YouTube video ID from: ")).
Proof.
  refine (proj2 (@extract_video_id_short_input [] _) _); simpl; lia.
Defined.

(** X10: the identifier [extract_video_id] returns is a contiguous part of
    its input: no character is added, changed or reordered. *)
Theorem extract_video_id_substring (url0 tok : str) :
  extract_video_id url0 = inr tok ->
  exists pre post, url0 = pre ++ tok ++ post.
Proof.
  rewrite extract_unfold.
  destruct (Re.search pattern_watch url0) as [g|] eqn:E1.
  { intros [= <-]. apply (search_some_shape shape_watch) in E1
      as (n & (pre & m & post & -> & _) & _).
    exists (pre ++ m), post. rewrite <- app_assoc. reflexivity. }
  destruct (Re.search pattern_short url0) as [g|] eqn:E2.
  { intros [= <-]. apply (search_some_shape shape_short) in E2
      as (n & (pre & m & post & -> & _) & _).
    exists (pre ++ m), post. rewrite <- app_assoc. reflexivity. }
  destruct (Re.search pattern_shorts url0) as [g|] eqn:E3.
  { intros [= <-]. apply (search_some_shape shape_shorts) in E3
      as (n & (pre & m & post & -> & _) & _).
    exists (pre ++ m), post. rewrite <- app_assoc. reflexivity. }
  destruct (is_video_id url0); [|discriminate].
  intros [= <-]. exists [], []. rewrite app_nil_r. reflexivity.
Qed.

Lemma extract_video_id_substring_witness :
  exists pre post,
    py "https://www.youtube.com/watch?v=abc123def45&t=42s" = pre ++ py "abc123def45" ++ post.
Proof.
  exact (@extract_video_id_substring
           (py "https://www.youtube.com/watch?v=abc123def45&t=42s") (py "abc123def45")
           eq_refl).
Defined.

(** X11: extraction is idempotent: what [extract_video_id] returns for any
    input is accepted by [extract_video_id] and returned unchanged. *)
Theorem extract_video_id_idempotent (url0 tok : str) :
  extract_video_id url0 = inr tok ->
  extract_video_id tok = inr tok.
Proof.
  intros H. apply extract_video_id_well_formed in H.
  rewrite extract_no_shape, H; [reflexivity|].
  intros ms Hin. apply video_id_absent; assumption.
Qed.

Lemma extract_video_id_idempotent_witness :
  extract_video_id (py "dQw4w9WgXcQ") = inr (py "dQw4w9WgXcQ").
Proof.
  exact (@extract_video_id_idempotent
           (py "https://www.youtube.com/shorts/dQw4w9WgXcQ?feature=share")
           (py "dQw4w9WgXcQ") eq_refl).
Defined.

(** ** [summarize]: the size of the request *)

(** X9: the message sent for summarization has the length of the fixed
    instruction text (315 characters for the default summary, 192 plus the
    prompt for a focused one) plus at most 100,000 characters of transcript:
    only the transcript is cut, the prompt never is. *)
Theorem user_msg_length (p transcript : str) :
  length (user_msg p transcript)
  = (if str_truthy p then 192 + length p else 315)
    + Nat.min (length transcript) (N.to_nat 100000)
  /\ length (user_msg p transcript) <= 315 + length p + N.to_nat 100000.
Proof.
  assert (length (truncate transcript) = Nat.min (length transcript) (N.to_nat 100000)) as Ht
      by (unfold truncate, TRUNCATE_LIMIT; rewrite length_firstn; apply Nat.min_comm).
  assert (length (user_msg p transcript)
          = (if str_truthy p then 192 + length p else 315)
            + Nat.min (length transcript) (N.to_nat 100000)) as E.
  { unfold user_msg, focus_msg, default_msg.
    destruct (str_truthy p); rewrite !length_app, Ht.
    - change (length FOCUS_BEFORE) with 71. change (length FOCUS_AFTER) with 121. lia.
    - change (length DEFAULT_INSTRUCTION) with 315. lia. }
  split; [exact E|]. rewrite E.
  pose proof (Nat.le_min_r (length transcript) (N.to_nat 100000)).
  destruct (str_truthy p); lia.
Qed.

(** ** Runs: every way a run can end *)

Lemma run_eq w a :
  run w a =
  match extract_video_id (url a) with
  | inl e => ([Traceback e], 1%Z)
  | inr vid =>
      match ytt_fetch w vid with
      | inl e => (fetch_events a vid ++ [Traceback e], 1%Z)
      | inr f =>
          let transcript := format_transcript w f in
          match prompt a with
          | None => (fetch_events a vid ++ save_events w a vid transcript, 0%Z)
          | Some p =>
              let key := str_of_opt (environ w API_KEY_VAR) in
              let content := user_msg p transcript in
              if opt_truthy (environ w API_KEY_VAR) then
                match messages_create w key (model a) 4096 content with
                | inl e =>
                    ((fetch_events a vid ++ save_events w a vid transcript
                        ++ [summarizing_line a; Getenv API_KEY_VAR;
                            CompletionCall key (model a) 4096 content])
                       ++ [Traceback e], 1%Z)
                | inr summary =>
                    ((fetch_events a vid ++ save_events w a vid transcript
                        ++ [summarizing_line a; Getenv API_KEY_VAR;
                            CompletionCall key (model a) 4096 content])
                       ++ summary_events w a vid summary, 0%Z)
                end
              else
                (fetch_events a vid ++ save_events w a vid transcript
                   ++ [summarizing_line a; Getenv API_KEY_VAR;
                       Stderr MISSING_KEY_1; Stderr MISSING_KEY_2], 1%Z)
          end
      end
  end.
Proof.
  destruct (extract_video_id (url a)) as [e|vid] eqn:Hx.
  { unfold run. rewrite main_eq, Hx. reflexivity. }
  destruct (ytt_fetch w vid) as [e|f] eqn:Hf.
  { unfold run. rewrite main_eq, Hx, Hf. reflexivity. }
  cbv zeta. destruct (prompt a) as [p|] eqn:Hp.
  - destruct (opt_truthy (environ w API_KEY_VAR)) eqn:Hk.
    + pose proof (run_with_key _ _ Hp Hk Hx Hf) as R. cbv zeta in R. exact R.
    + exact (run_missing_key _ _ Hp Hk Hx Hf).
  - unfold run. rewrite main_eq, Hx, Hf. cbv zeta. rewrite Hp. reflexivity.
Qed.

(** Case analysis on the whole table of [run_eq]. *)
Ltac run_table w a :=
  rewrite (run_eq w a);
  destruct (extract_video_id (url a)) as [?e|?vid] eqn:?Hx;
  [|destruct (ytt_fetch w _) as [?e|?f] eqn:?Hf;
    [|cbv zeta; destruct (prompt a) as [?p|] eqn:?Hp;
      [destruct (opt_truthy (environ w API_KEY_VAR)) eqn:?Hk;
       [destruct (messages_create w _ (model a) 4096 _) as [?e|?summary] eqn:?Hm|]|]]].

Lemma extract_video_id_error url0 e :
  extract_video_id url0 = inl e -> e = invalid_input url0.
Proof.
  rewrite extract_unfold.
  destruct (Re.search pattern_watch url0); [discriminate|].
  destruct (Re.search pattern_short url0); [discriminate|].
  destruct (Re.search pattern_shorts url0); [discriminate|].
  destruct (is_video_id url0); [discriminate|]. intros [= <-]. reflexivity.
Qed.

(** X1: when the positional argument is neither a recognized URL nor an
    identifier, the run does nothing at all before it dies: no directory is
    created, nothing is printed on standard output, no service is called and
    no file is written; the only event is the traceback of the [ValueError]
    that names the input, and the exit status is 1. *)
Theorem invalid_input_run (w : world) (a : args) (e : exn) :
  extract_video_id (url a) = inl e ->
  run w a
  = ([Traceback (ValueError (py "Could not extract a YouTube video ID from: " ++ url a))],
     1%Z).
Proof.
  intros Hx. rewrite run_eq, Hx. rewrite (extract_video_id_error _ Hx). reflexivity.
Qed.

Lemma invalid_input_run_witness :
  run world_without_key (default_args (py "https://example.com/video"))
  = ([Traceback
        (ValueError
           (py "Could not extract a YouTube video ID from: https://example.com/video"))],
     1%Z).
Proof.
  exact (@invalid_input_run world_without_key
           (default_args (py "https://example.com/video"))
           (invalid_input (py "https://example.com/video")) eq_refl).
Defined.

(** X2: when the transcript service fails, the run has already created the
    output directory and announced the fetch; it then ends with the
    traceback of the service's exception and exit status 1. No file is
    written, the credential is not read and the completion service is not
    called, even when a summary was requested. *)
Theorem fetch_failure_run (w : world) (a : args) (vid : str) (e : exn) :
  extract_video_id (url a) = inr vid ->
  ytt_fetch w vid = inl e ->
  run w a
  = ([Mkdir (output_dir a);
      Stdout (py "Fetching transcript for video: " ++ vid ++ py " ...");
      FetchCall vid;
      Traceback e], 1%Z)
  /\ writes (fst (run w a)) = []
  /\ filter is_getenv (fst (run w a)) = []
  /\ filter is_completion_call (fst (run w a)) = [].
Proof.
  intros Hx Hf. rewrite run_eq, Hx, Hf. repeat split; reflexivity.
Qed.

Lemma fetch_failure_run_witness :
  writes (fst (run (stub_world (Some (py "sk-ant-test"))
                      (inl (ServiceError (py "transcripts disabled")))
                      (inr (py "a summary")))
                   args_default_summary)) = [].
Proof.
  exact (proj1 (proj2 (@fetch_failure_run
                         (stub_world (Some (py "sk-ant-test"))
                            (inl (ServiceError (py "transcripts disabled")))
                            (inr (py "a summary")))
                         args_default_summary (py "dQw4w9WgXcQ")
                         (ServiceError (py "transcripts disabled")) eq_refl eq_refl))).
Defined.

Lemma writes_app t t' : writes (t ++ t') = writes t ++ writes t'.
Proof.
  induction t as [|e t IH]; simpl; [reflexivity|].
  destruct e; simpl; rewrite ?IH; reflexivity.
Qed.

Lemma writes_save_events w a vid transcript :
  writes (save_events w a vid transcript)
  = if no_transcript a then []
    else [({| parent := output_dir a; name := transcript_name vid |}, transcript)].
Proof. unfold save_events. destruct (no_transcript a); reflexivity. Qed.

(** The files a run writes, in every case. *)
Lemma run_writes w a :
  writes (fst (run w a)) =
  match extract_video_id (url a) with
  | inl _ => []
  | inr vid =>
      match ytt_fetch w vid with
      | inl _ => []
      | inr f =>
          let transcript := format_transcript w f in
          (if no_transcript a then []
           else [({| parent := output_dir a; name := transcript_name vid |}, transcript)])
          ++ match prompt a with
             | None => []
             | Some p =>
                 if opt_truthy (environ w API_KEY_VAR) then
                   match messages_create w (str_of_opt (environ w API_KEY_VAR)) (model a)
                           4096 (user_msg p transcript) with
                   | inl _ => []
                   | inr summary =>
                       [({| parent := output_dir a; name := summary_name vid |}, summary)]
                   end
                 else []
             end
      end
  end.
Proof.
  run_table w a; cbn [fst]; rewrite ?writes_app, ?writes_save_events, ?app_nil_r;
    reflexivity.
Qed.

Lemma path_eqb_sym p q : path_eqb p q = path_eqb q p.
Proof.
  unfold path_eqb.
  assert (forall x y, str_eqb x y = str_eqb y x) as C.
  { intros x y. destruct (str_eqb x y) eqn:E, (str_eqb y x) eqn:E'; try reflexivity.
    - apply str_eqb_eq in E. subst. rewrite str_eqb_refl in E'. discriminate.
    - apply str_eqb_eq in E'. subst. rewrite str_eqb_refl in E. discriminate. }
  rewrite (C (parent p)), (C (name p)). reflexivity.
Qed.

Lemma path_summary_transcript d d' vid id :
  path_eqb {| parent := d; name := summary_name vid |}
           {| parent := d'; name := transcript_name id |} = false.
Proof.
  unfold path_eqb. cbn [parent name].
  destruct (str_eqb (summary_name vid) (transcript_name id)) eqn:E.
  - apply str_eqb_eq in E. elim (summary_is_not_transcript E).
  - apply andb_false_r.
Qed.

(** X3: when the completion service fails, the run ends with the traceback
    of its exception and exit status 1, and writes no summary file; the
    transcript file, written before the request, stays: the only file of
    the run is the transcript, unless it was suppressed. *)
Theorem completion_failure_run (w : world) (a : args) (p vid : str) (f : fetched w)
    (e : exn) :
  prompt a = Some p ->
  extract_video_id (url a) = inr vid ->
  ytt_fetch w vid = inr f ->
  opt_truthy (environ w API_KEY_VAR) = true ->
  messages_create w (str_of_opt (environ w API_KEY_VAR)) (model a) 4096
    (user_msg p (format_transcript w f)) = inl e ->
  snd (run w a) = 1%Z
  /\ filter on_stderr (fst (run w a)) = [Traceback e]
  /\ writes (fst (run w a))
     = (if no_transcript a then []
        else [({| parent := output_dir a; name := transcript_name vid |},
               format_transcript w f)])
  /\ file_after (fst (run w a)) {| parent := output_dir a; name := summary_name vid |}
     = None.
Proof.
  intros Hp Hx Hf Hk Hm. split; [|split; [|split]].
  - rewrite run_eq, Hx, Hf. cbv zeta. rewrite Hp, Hk, Hm. reflexivity.
  - rewrite run_eq, Hx, Hf. cbv zeta. rewrite Hp, Hk, Hm. cbn [fst].
    rewrite !filter_app, (proj2 (proj2 (save_events_no_calls w a vid _))). reflexivity.
  - rewrite run_writes, Hx, Hf. cbv zeta. rewrite Hp, Hk, Hm. apply app_nil_r.
  - rewrite run_eq, Hx, Hf. cbv zeta. rewrite Hp, Hk, Hm. cbn [fst].
    unfold save_events. destruct (no_transcript a); [reflexivity|].
    cbn [app fetch_events file_after].
    rewrite path_eqb_sym, path_summary_transcript. reflexivity.
Qed.

Lemma completion_failure_run_witness :
  writes (fst (run (stub_world (Some (py "sk-ant-test")) (inr (py "hello"))
                      (inl (ServiceError (py "overloaded"))))
                   {| url := py "https://youtu.be/dQw4w9WgXcQ"; prompt := Some [];
                      output_dir := py "out"; model := py "claude-haiku-4-5-20251001";
                      no_transcript := false |}))
  = [({| parent := py "out"; name := py "transcript-dQw4w9WgXcQ.txt" |}, py "hello")].
Proof.
  exact (proj1 (proj2 (proj2 (@completion_failure_run
           (stub_world (Some (py "sk-ant-test")) (inr (py "hello"))
              (inl (ServiceError (py "overloaded"))))
           {| url := py "https://youtu.be/dQw4w9WgXcQ"; prompt := Some [];
              output_dir := py "out"; model := py "claude-haiku-4-5-20251001";
              no_transcript := false |}
           [] (py "dQw4w9WgXcQ") (py "hello") (ServiceError (py "overloaded"))
           eq_refl eq_refl eq_refl eq_refl eq_refl)))).
Defined.



(** X5: a run whose command line [parse_args] accepted and that exits with
    status 0 has written every file it was asked for: the transcript file
    with the whole fetched text unless [--no-transcript], and the summary
    file with the text of the completion when a prompt was supplied; and it
    has written nothing else. *)
Theorem success_writes_outputs (w : world) (a : args) :
  snd (run w a) = 0%Z ->
  exists vid f,
    extract_video_id (url a) = inr vid
    /\ ytt_fetch w vid = inr f
    /\ exists summaries,
         writes (fst (run w a))
         = (if no_transcript a then []
            else [({| parent := output_dir a; name := transcript_name vid |},
                   format_transcript w f)])
           ++ summaries
         /\ match prompt a with
            | None => summaries = []
            | Some p =>
                exists summary,
                  messages_create w (str_of_opt (environ w API_KEY_VAR)) (model a) 4096
                    (user_msg p (format_transcript w f)) = inr summary
                  /\ summaries
                     = [({| parent := output_dir a; name := summary_name vid |}, summary)]
            end.
Proof.
  intros H0. rewrite run_writes. revert H0.
  run_table w a; cbn [snd]; try discriminate; intros _.
  - exists vid, f. split; [reflexivity|]. split; [exact Hf|].
    eexists; split; [reflexivity|]. exists summary. auto.
  - exists vid, f. split; [reflexivity|]. split; [exact Hf|].
    eexists; split; [reflexivity|]. reflexivity.
Qed.

Lemma success_writes_outputs_witness :
  exists vid f,
    extract_video_id (url args_default_summary) = inr vid
    /\ ytt_fetch world_with_key vid = inr f
    /\ exists summaries,
         writes (fst (run world_with_key args_default_summary)) = [] ++ summaries
         /\ exists summary,
              messages_create world_with_key (py "sk-ant-test")
                (py "claude-haiku-4-5-20251001") 4096
                (user_msg [] (format_transcript world_with_key f)) = inr summary
              /\ summaries
                 = [({| parent := py "out"; name := summary_name vid |}, summary)].
Proof.
  exact (@success_writes_outputs world_with_key args_default_summary eq_refl).
Defined.

(** X6: a run makes at most two network requests, in a fixed order: first
    one request to the transcript service, for the extracted identifier,
    and then, only when a prompt was supplied, the transcript was fetched
    and the credential is set, one request to the completion service, with
    that credential, the model of the command line, 4096 as the token limit
    and the message built from the prompt and the transcript. *)
Theorem network_calls_of_run (w : world) (a : args) :
  filter is_network_call (fst (run w a)) =
  match extract_video_id (url a) with
  | inl _ => []
  | inr vid =>
      FetchCall vid ::
      match ytt_fetch w vid, prompt a, environ w API_KEY_VAR with
      | inr f, Some p, Some (c :: key) =>
          [CompletionCall (c :: key) (model a) 4096 (user_msg p (format_transcript w f))]
      | _, _, _ => []
      end
  end.
Proof.
  assert (forall vid tr, filter is_network_call (save_events w a vid tr) = []) as Hs
      by (intros; unfold save_events; destruct (no_transcript a); reflexivity).
  run_table w a; cbn [fst]; rewrite ?filter_app, ?Hs; try reflexivity.
  - revert Hk Hm. destruct (environ w API_KEY_VAR) as [[|c key]|];
      intros Hk Hm; cbn in Hk; try discriminate Hk; reflexivity.
  - revert Hk Hm. destruct (environ w API_KEY_VAR) as [[|c key]|];
      intros Hk Hm; cbn in Hk; try discriminate Hk; reflexivity.
  - revert Hk. destruct (environ w API_KEY_VAR) as [[|c key]|];
      intros Hk; cbn in Hk; try discriminate Hk; reflexivity.
Qed.

Lemma id_chars_are_file_name_chars s :
  forallb id_char s = true -> forallb file_name_char s = true.
Proof.
  rewrite !forallb_forall. intros H c Hc. unfold file_name_char.
  rewrite (H c Hc). reflexivity.
Qed.

Lemma output_names_safe vid :
  is_video_id vid = true ->
  forallb file_name_char (transcript_name vid) = true
  /\ forallb file_name_char (summary_name vid) = true.
Proof.
  intros Hid. unfold is_video_id in Hid. apply andb_true_iff in Hid as [_ F].
  apply id_chars_are_file_name_chars in F.
  unfold transcript_name, summary_name. rewrite !forallb_app, F. split; reflexivity.
Qed.

(** X7: every file a run writes lies directly in the output directory, and
    its name is made of letters, digits, [_], [-] and [.] only; whatever the
    URL argument holds, a run cannot be made to write through a path
    separator in a file name. *)
Theorem written_files_stay_in_output_dir (w : world) (a : args) (p : path) (text : str) :
  In (p, text) (writes (fst (run w a))) ->
  parent p = output_dir a
  /\ forallb file_name_char (name p) = true
  /\ ~ In 47%N (name p).
Proof.
  intros H.
  assert (parent p = output_dir a /\ forallb file_name_char (name p) = true) as [Hd Hn].
  { rewrite run_writes in H.
    destruct (extract_video_id (url a)) as [e|vid] eqn:Hx; [destruct H|].
    pose proof (output_names_safe _ (extract_video_id_well_formed _ Hx)) as [Ht Hs].
    destruct (ytt_fetch w vid) as [e|f]; [destruct H|]. cbv zeta in H.
    apply in_app_or in H as [H|H].
    - destruct (no_transcript a); [destruct H|].
      destruct H as [[= <- _]|[]]. auto.
    - destruct (prompt a) as [q|]; [|destruct H].
      destruct (opt_truthy (environ w API_KEY_VAR)); [|destruct H].
      destruct (messages_create w _ (model a) 4096 _) as [e|summary]; [destruct H|].
      destruct H as [[= <- _]|[]]. auto. }
  split; [exact Hd|]. split; [exact Hn|].
  intros Hin. rewrite forallb_forall in Hn. specialize (Hn _ Hin). discriminate Hn.
Qed.

Lemma written_files_stay_in_output_dir_witness :
  parent {| parent := py "out"; name := py "summary-dQw4w9WgXcQ.txt" |} = py "out"
  /\ forallb file_name_char
       (name {| parent := py "out"; name := py "summary-dQw4w9WgXcQ.txt" |}) = true
  /\ ~ In 47%N (name {| parent := py "out"; name := py "summary-dQw4w9WgXcQ.txt" |}).
Proof.
  apply (@written_files_stay_in_output_dir world_with_key args_default_summary
           {| parent := py "out"; name := py "summary-dQw4w9WgXcQ.txt" |} (py "a summary")).
  simpl. left. reflexivity.
Defined.

(** X8: once the transcript has been fetched, and unless [--no-transcript]
    was given, the transcript file holds the whole fetched text at the end
    of the run, however long the text is and however the summarization
    ends: the cut to 100,000 characters touches the request only, and a
    missing credential or a failing completion leaves the file in place. *)
Theorem transcript_file_holds_whole_text (w : world) (a : args) (vid : str)
    (f : fetched w) :
  extract_video_id (url a) = inr vid ->
  ytt_fetch w vid = inr f ->
  no_transcript a = false ->
  file_after (fst (run w a)) {| parent := output_dir a; name := transcript_name vid |}
  = Some (format_transcript w f).
Proof.
  intros Hx Hf Hno. rewrite run_eq, Hx, Hf. cbv zeta.
  unfold save_events. rewrite Hno.
  destruct (prompt a) as [p|];
    [destruct (opt_truthy (environ w API_KEY_VAR));
     [destruct (messages_create w _ (model a) 4096 _) as [e|summary]|]|];
    cbn [fst app fetch_events summary_events summarizing_line file_after];
    rewrite ?path_summary_transcript; cbn [file_after];
    rewrite path_eqb_refl; reflexivity.
Qed.

Lemma transcript_file_holds_whole_text_witness :
  file_after
    (fst (run (stub_world None (inr (py "hello")) (inr (py "a summary")))
              {| url := py "https://youtu.be/dQw4w9WgXcQ"; prompt := Some (py "why?");
                 output_dir := py "out"; model := py "claude-haiku-4-5-20251001";
                 no_transcript := false |}))
    {| parent := py "out"; name := transcript_name (py "dQw4w9WgXcQ") |}
  = Some (py "hello").
Proof.
  exact (@transcript_file_holds_whole_text
           (stub_world None (inr (py "hello")) (inr (py "a summary")))
           {| url := py "https://youtu.be/dQw4w9WgXcQ"; prompt := Some (py "why?");
              output_dir := py "out"; model := py "claude-haiku-4-5-20251001";
              no_transcript := false |}
           (py "dQw4w9WgXcQ") (py "hello") eq_refl eq_refl eq_refl).
Defined.

(** X14: with [--no-transcript] and no prompt a run produces no file at
    all, yet it still creates the output directory and requests the
    transcript: when the request succeeds the text is dropped and the run
    exits with status 0 after its single line of output. *)
Theorem no_transcript_no_prompt_run (w : world) (a : args) :
  no_transcript a = true ->
  prompt a = None ->
  writes (fst (run w a)) = []
  /\ (forall vid f,
        extract_video_id (url a) = inr vid -> ytt_fetch w vid = inr f ->
        run w a
        = ([Mkdir (output_dir a);
            Stdout (py "Fetching transcript for video: " ++ vid ++ py " ...");
            FetchCall vid], 0%Z)).
Proof.
  intros Hno Hp. split.
  - rewrite run_writes, Hno, Hp.
    destruct (extract_video_id (url a)) as [e|vid]; [reflexivity|].
    destruct (ytt_fetch w vid); reflexivity.
  - intros vid f Hx Hf. rewrite run_eq, Hx, Hf. cbv zeta. rewrite Hp.
    unfold save_events. rewrite Hno. reflexivity.
Qed.

Lemma no_transcript_no_prompt_run_witness :
  writes (fst (run world_with_key
                 {| url := py "dQw4w9WgXcQ"; prompt := None; output_dir := py "out";
                    model := py "claude-haiku-4-5-20251001"; no_transcript := true |}))
  = [].
Proof.
  exact (proj1 (@no_transcript_no_prompt_run world_with_key
                  {| url := py "dQw4w9WgXcQ"; prompt := None; output_dir := py "out";
                     model := py "claude-haiku-4-5-20251001"; no_transcript := true |}
                  eq_refl eq_refl)).
Defined.

Lemma extract_video_id_raises_iff_witness :
  extract_video_id (py "watch?v=short")
  = inl (ValueError (py "Could not extract a YouTube video ID from: watch?v=short")).
Proof.
  apply (proj2 (extract_video_id_raises_iff (py "watch?v=short")
                  (ValueError (py "Could not extract a YouTube video ID from: watch?v=short")))).
  split; [apply no_shape_by_search; reflexivity|]. split; reflexivity.
Defined.
